(** * NetBox: configuration-context resolution and the extras feature registry

    A shallow embedding of
    - [extras/models/configcontexts.py]: [ConfigContext.clean],
      [ConfigContextModel.get_config_context], [ConfigContextModel.clean];
    - [extras/utils.py]: [FeatureQuery], [register_features];
    together with the properties stated about them. *)

From Stdlib Require Import ZArith NArith String Ascii List Bool Lia.
From Stdlib Require Import DecimalString.
From Stdlib Require Import Sorting.Permutation Sorting.Sorted.
From Stdlib Require Import Structures.OrderedTypeEx.
From stdpp Require Import base gmap strings.
Import ListNotations.

Set Warnings "-register-all".

Local Open Scope string_scope.
Local Open Scope list_scope.

(** ** Python values stored in a JSON column *)

Module Json.

(** The values [json.loads] produces.  A JSON object is a Python [dict]; it is
    kept as an association list in insertion order, the order an
    [OrderedDict] iterates in.  Numbers are restricted to integers. *)
Inductive json : Type :=
| JNull : json
| JBool : bool -> json
| JNum : Z -> json
| JStr : string -> json
| JArr : list json -> json
| JObj : list (string * json) -> json.

Definition dict : Type := list (string * json).

(** [type(v) is dict] *)
Definition is_dict (v : json) : bool :=
  match v with JObj _ => true | _ => false end.

(** Python truthiness ([bool(v)], as used by [if v:], [v or w], [v and w]). *)
Definition truthy (v : json) : bool :=
  match v with
  | JNull => false
  | JBool b => b
  | JNum z => negb (Z.eqb z 0)
  | JStr s => negb (String.eqb s "")
  | JArr l => match l with [] => false | _ => true end
  | JObj d => match d with [] => false | _ => true end
  end.

(** [d.get(k)] / [d[k]]: [None] when [k not in d]. *)
Fixpoint get (d : dict) (k : string) : option json :=
  match d with
  | [] => None
  | (k', v) :: tl => if String.eqb k k' then Some v else get tl k
  end.

(** [d[k] = v] on an ordered dictionary: an existing key keeps its position,
    a new key is appended. *)
Fixpoint set (d : dict) (k : string) (v : json) : dict :=
  match d with
  | [] => [(k, v)]
  | (k', v') :: tl =>
      if String.eqb k k' then (k', v) :: tl else (k', v') :: set tl k v
  end.

Definition keys (d : dict) : list string := map fst d.

Fixpoint distinct (l : list string) : bool :=
  match l with
  | [] => true
  | k :: tl => negb (existsb (String.eqb k) tl) && distinct tl
  end.

(** Representation invariant of a Python [dict]: no key occurs twice. *)
Definition wf_dict (d : dict) : bool := distinct (keys d).

(** The invariant at every level of a value. *)
Fixpoint wf (v : json) : bool :=
  match v with
  | JArr l => forallb wf l
  | JObj d =>
      distinct (map fst d)
      && (fix all (l : list (string * json)) : bool :=
            match l with
            | [] => true
            | (_, x) :: tl => wf x && all tl
            end) d
  | _ => true
  end.

End Json.
Import Json.

(** ** [utilities.utils.deepmerge] *)

(** Modelled from the spec: [deepmerge] of [utilities/utils.py], which
    [configcontexts.py] imports and which is not among the source files.  The
    spec defines it as the "recursive merge of two mappings where nested
    mappings combine key-wise and all other values are overwritten by the
    later operand": walking the later mapping [new], a key whose value is a
    mapping on both sides is merged recursively, any other key takes the value
    of [new]; keys only [original] has are kept.  [merge_value o v] is the
    value stored under a key that [original] maps to [o] and [new] to [v]. *)
Fixpoint merge_value (o : option json) (v : json) {struct v} : json :=
  match o, v with
  | Some (JObj original), JObj new =>
      JObj ((fix items (merged : dict) (l : list (string * json)) : dict :=
               match l with
               | [] => merged
               | (key, val) :: tl =>
                   items (set merged key (merge_value (get original key) val)) tl
               end) original new)
  | _, _ => v
  end.

(** Modelled from the spec: the loop of [deepmerge] over the items of the
    later mapping; [merged] starts as a copy of [original]. *)
Fixpoint merge_items (original merged : dict) (l : list (string * json)) : dict :=
  match l with
  | [] => merged
  | (key, val) :: tl =>
      merge_items original
        (set merged key (merge_value (get original key) val)) tl
  end.

(** Modelled from the spec: [deepmerge(original, new)] of
    [utilities/utils.py] (not among the source files), the "recursive merge of
    two mappings" with [new] as the later operand. *)
Definition deepmerge (original new : dict) : dict :=
  merge_items original original new.

(** ** Exceptions and effects *)

Inductive exn : Type :=
| ValidationError (field message : string)
| ValueError (message : string)
| TypeError
| AttributeError
| KeyError (key : string).

(** Outcome of a call: a returned value or a raised exception. *)
Inductive result (A : Type) : Type :=
| Ok (a : A)
| Raise (e : exn).
Arguments Ok {A} a.
Arguments Raise {A} e.

(** A computation over a mutable state [S].  The state reached is reported
    also when an exception is raised: whatever was written before the [raise]
    stays written. *)
Definition M (S A : Type) : Type := S -> result A * S.

Definition ret {S A} (a : A) : M S A := fun s => (Ok a, s).
Definition raise {S A} (e : exn) : M S A := fun s => (Raise e, s).
Definition bind {S A B} (m : M S A) (k : A -> M S B) : M S B :=
  fun s =>
    match m s with
    | (Ok a, s') => k a s'
    | (Raise e, s') => (Raise e, s')
    end.
Definition lift {S A} (r : result A) : M S A := fun s => (r, s).

Notation "'let*' x ':=' m 'in' k" :=
  (bind m (fun x => k))
  (at level 10, x name, m at level 100, k at level 200).

(** [for x in l: body(x)] *)
Fixpoint for_each {S A} (l : list A) (body : A -> M S unit) : M S unit :=
  match l with
  | [] => ret tt
  | x :: tl => let* _ := body x in for_each tl body
  end.

(** ** [extras/models/configcontexts.py] *)

Module ConfigContexts.

(** A [ConfigContext] row.  The many-to-many scope assignments (regions,
    sites, roles, ..., tags) are only ever read by the queryset that selects
    the rows applying to an object; they enter below through [applies]. *)
Record ConfigContext : Type := {
  name : string;
  weight : N;
  is_active : bool;
  data : json
}.

(** An instance of a model that mixes in [ConfigContextModel].
    [config_context_data] is the attribute a queryset may have annotated the
    instance with: [None] when [hasattr(self, 'config_context_data')] is
    false, otherwise its value.  A null [local_context_data] is [JNull]. *)
Record ConfigContextModel : Type := {
  pk : N;
  config_context_data : option json;
  local_context_data : json
}.

(** The text of the validation message; it contains a quoted [foo]. *)
Definition message : string :=
  "JSON data must be in object form. Example: {"
  ++ String "034"%char "foo" ++ String "034"%char ": 123}".

(** [ConfigContext.clean] ([super().clean()] is the framework's empty hook). *)
Definition ConfigContext_clean (self : ConfigContext) : result unit :=
  if negb (is_dict (data self))
  then Raise (ValidationError "data" message)
  else Ok tt.

(** [ConfigContextModel.clean] *)
Definition ConfigContextModel_clean (self : ConfigContextModel) : result unit :=
  if truthy (local_context_data self) && negb (is_dict (local_context_data self))
  then Raise (ValidationError "local_context_data" message)
  else Ok tt.

(** [Meta.ordering = ['weight', 'name']]: ascending weight, then ascending
    name, names compared character by character. *)
Definition ordering (a b : ConfigContext) : bool :=
  N.ltb (weight a) (weight b)
  || (N.eqb (weight a) (weight b) && String.leb (name a) (name b)).

Fixpoint insert_ordered (c : ConfigContext) (l : list ConfigContext)
  : list ConfigContext :=
  match l with
  | [] => [c]
  | x :: tl => if ordering c x then c :: l else x :: insert_ordered c tl
  end.

Definition order_by (l : list ConfigContext) : list ConfigContext :=
  fold_right insert_ordered [] l.

(** The table of [ConfigContext] rows, and how often it has been queried. *)
Record database : Type := {
  rows : list ConfigContext;
  queries : nat
}.

(** [deepmerge(data, context)] as Python runs it: the merge is defined on
    mappings, and an operand without [.items()] makes the call fail. *)
Definition call_deepmerge (data : dict) (context : json) : result dict :=
  match context with
  | JObj new => Ok (deepmerge data new)
  | _ => Raise AttributeError
  end.

(** [for context in config_context_data: data = deepmerge(data, context)] *)
Fixpoint merge_contexts (data : dict) (l : list json) : result dict :=
  match l with
  | [] => Ok data
  | context :: tl =>
      match call_deepmerge data context with
      | Ok data' => merge_contexts data' tl
      | Raise e => Raise e
      end
  end.

Fixpoint characters (s : string) : list json :=
  match s with
  | EmptyString => []
  | String c tl => JStr (String c EmptyString) :: characters tl
  end.

(** What [for context in v] iterates over: the elements of a list, the keys of
    a mapping, the characters of a string; anything else is not iterable. *)
Definition iterate (v : json) : result (list json) :=
  match v with
  | JArr l => Ok l
  | JObj d => Ok (map JStr (keys d))
  | JStr s => Ok (characters s)
  | _ => Raise TypeError
  end.

Section Resolver.

(** [applies c self]: row [c] is selected for [self] by the scope filter of
    the queryset (each scope dimension of [c] is unset or contains the
    corresponding attribute of [self]). *)
Variable applies : ConfigContext -> ConfigContextModel -> bool.

(** Modelled from the spec: [ConfigContextQuerySet.get_for_object] of
    [extras/querysets.py], which is not among the source files.  With
    [aggregate_data=True] it yields "the ordered sequence of matching context
    payloads, ordered ascending by (weight, name)".  Each call is one query
    against the table. *)
Definition get_for_object (self : ConfigContextModel) : M database (list json) :=
  fun db =>
    (Ok (map data (order_by (List.filter (fun c => applies c self) (rows db)))),
     {| rows := rows db; queries := S (queries db) |}).

(** [ConfigContextModel.get_config_context] *)
Definition get_config_context (self : ConfigContextModel) : M database dict :=
  let data := [] in
  let* config_context_data :=
    match config_context_data self with
    | Some v => ret (if truthy v then v else JArr [])
    | None => let* l := get_for_object self in ret (JArr l)
    end in
  let* contexts := lift (iterate config_context_data) in
  let* data := lift (merge_contexts data contexts) in
  if truthy (local_context_data self)
  then lift (call_deepmerge data (local_context_data self))
  else ret data.

(** The sequence of payloads the loop of [get_config_context] runs over:
    the annotated attribute if the instance has one, the stored rows that
    apply otherwise. *)
Definition inherited_contexts (self : ConfigContextModel) (db : database)
  : result (list json) :=
  match config_context_data self with
  | Some v => iterate (if truthy v then v else JArr [])
  | None =>
      Ok (map data (order_by (List.filter (fun c => applies c self) (rows db))))
  end.

End Resolver.

End ConfigContexts.

(** ** [extras/utils.py] *)

Module Extras.

(** [model._meta]: [label_lower] is [app_label], a dot, [model_name]; neither
    part contains a dot, so [label_lower.split('.')] is this pair. *)
Record Model : Type := {
  app_label : string;
  model_name : string
}.

(** Modelled from the spec: [registry['model_features']] of
    [extras/registry.py], which is not among the source files: a "mapping from
    feature name → mapping from app label → set of model names".  A feature
    has a bucket or the subscript fails; inside a bucket the set of an app
    label comes into being on first use. *)
Abbreviation model_features := (gmap string (gmap string (gset string))).

(** Modelled from the spec: the registry of [extras/registry.py] (not among
    the source files) at load time, "populated once at startup per registered
    model": an empty bucket per supported feature. *)
Definition registry_init (features : list string) : model_features :=
  fold_right (fun feature reg => <[feature := ∅]> reg) ∅ features.

(** [django.db.models.Q] as far as [FeatureQuery] uses it.  [Q()] is the
    empty filter, which constrains nothing. *)
Inductive Q : Type :=
| Q_empty : Q
| Q_lookup (app_label : string) (model__in : gset string) : Q
| Q_or (l r : Q) : Q.

(** [l | r]: an empty operand yields the other one. *)
Definition or_ (l r : Q) : Q :=
  match l, r with
  | Q_empty, _ => r
  | _, Q_empty => l
  | _, _ => Q_or l r
  end.

(** Whether a content type [(app_label, model)] satisfies a filter. *)
Fixpoint selects (q : Q) (ct : string * string) : bool :=
  match q with
  | Q_empty => true
  | Q_lookup a models => String.eqb a (fst ct) && bool_decide (snd ct ∈ models)
  | Q_or l r => selects l ct || selects r ct
  end.

Record FeatureQuery : Type := { feature : string }.

(** [FeatureQuery.__init__] *)
Definition FeatureQuery_init (feature : string) : M model_features FeatureQuery :=
  ret {| feature := feature |}.

(** [FeatureQuery.get_query].  The disjuncts come in the order the bucket
    enumerates its items. *)
Definition get_query (self : FeatureQuery) : M model_features Q :=
  fun registry =>
    match registry !! feature self with
    | None => (Raise (KeyError (feature self)), registry)
    | Some bucket =>
        (Ok (fold_left
               (fun query item => or_ query (Q_lookup (fst item) (snd item)))
               (map_to_list bucket) Q_empty),
         registry)
    end.

(** [FeatureQuery.__call__] *)
Definition FeatureQuery_call (self : FeatureQuery) : M model_features Q :=
  get_query self.

(** [registry['model_features'][feature][app_label].add(model_name)] *)
Definition add_model (feature app_label model_name : string)
  : M model_features unit :=
  fun registry =>
    match registry !! feature with
    | None => (Raise (KeyError feature), registry)
    | Some bucket =>
        (Ok tt,
         <[feature :=
             <[app_label := default ∅ (bucket !! app_label) ∪ {[model_name]}]>
               bucket]> registry)
    end.

Section Features.

(** [EXTRAS_FEATURES] of [extras/constants.py], the enumerated feature names;
    the constant is not among the source files. *)
Variable EXTRAS_FEATURES : list string.

(** [register_features] *)
Definition register_features (model : Model) (features : list string)
  : M model_features unit :=
  for_each features (fun feature =>
    if negb (bool_decide (feature ∈ EXTRAS_FEATURES))
    then raise (ValueError (feature ++ " is not a valid extras feature!"))
    else
      let (app_label, model_name) := (app_label model, model_name model) in
      add_model feature app_label model_name).

(** A [FeatureQuery] is built, then models register, then the query is
    called. *)
Definition build_register_call (feature : string)
    (registrations : list (Model * list string)) : M model_features Q :=
  let* query := FeatureQuery_init feature in
  let* _ := for_each registrations
              (fun r => register_features (fst r) (snd r)) in
  FeatureQuery_call query.

End Features.

End Extras.

Import ConfigContexts Extras.

(** ** [extras/utils.py]: [image_upload] *)

Module Uploads.

(** The attributes of an image attachment that [image_upload] reads:
    [instance.name], [instance.content_type.name], [instance.object_id]. *)
Record ImageAttachment : Type := {
  name : string;
  content_type_name : string;
  object_id : N
}.

(** [s.rsplit(sep)] without a limit: the pieces between the separators, in
    order; there is always at least one piece. *)
Fixpoint rsplit (sep : ascii) (s : string) : list string :=
  match s with
  | EmptyString => [EmptyString]
  | String c tl =>
      if Ascii.eqb c sep then EmptyString :: rsplit sep tl
      else match rsplit sep tl with
           | x :: xs => String c x :: xs
           | [] => [String c EmptyString]
           end
  end.

(** [c.lower()] on the letters A to Z.  Strings are byte strings here; no
    other character lowers to one of the letters that the extensions compared
    below are made of. *)
Definition lower_char (c : ascii) : ascii :=
  let n := N_of_ascii c in
  if (65 <=? n)%N && (n <=? 90)%N then ascii_of_N (n + 32) else c.

Fixpoint lower (s : string) : string :=
  match s with
  | EmptyString => EmptyString
  | String c tl => String (lower_char c) (lower tl)
  end.

(** [str(n)] *)
Definition str (n : N) : string := NilEmpty.string_of_uint (N.to_uint n).

Definition image_extensions : list string :=
  ["bmp"; "gif"; "jpeg"; "jpg"; "png"].

(** [filename.rsplit('.')[-1].lower()] *)
Definition extension_of (filename : string) : string :=
  lower (List.last (rsplit "." filename) EmptyString).

(** [image_upload] *)
Definition image_upload (instance : ImageAttachment) (filename : string)
  : string :=
  let path := "image-attachments/" in
  let extension := extension_of filename in
  let filename :=
    if negb (String.eqb (name instance) "")
    then
      if existsb (String.eqb extension) image_extensions
      then String.concat "." [name instance; extension]
      else name instance
    else filename in
  path ++ content_type_name instance ++ "_" ++ str (object_id instance)
       ++ "_" ++ filename.

End Uploads.

(** ** [netbox/constants.py] *)

Module Constants.

(** An entry of a search-type table.  The queryset is an ORM expression; it is
    kept as the name of the model it ranges over.  The filter set and the
    table are classes, kept by their names. *)
Record SearchType : Type := {
  queryset : string;
  filterset : string;
  table : string;
  url : string
}.

Definition entry (name queryset filterset table url : string)
  : string * SearchType :=
  (name, {| queryset := queryset; filterset := filterset; table := table;
            url := url |}).

Definition CIRCUIT_TYPES : list (string * SearchType) :=
  [ entry "provider" "Provider" "ProviderFilterSet" "ProviderTable"
      "circuits:provider_list";
    entry "circuit" "Circuit" "CircuitFilterSet" "CircuitTable"
      "circuits:circuit_list";
    entry "providernetwork" "ProviderNetwork" "ProviderNetworkFilterSet"
      "ProviderNetworkTable" "circuits:providernetwork_list" ].

Definition DCIM_TYPES : list (string * SearchType) :=
  [ entry "site" "Site" "SiteFilterSet" "SiteTable" "dcim:site_list";
    entry "rack" "Rack" "RackFilterSet" "RackTable" "dcim:rack_list";
    entry "rackreservation" "RackReservation" "RackReservationFilterSet"
      "RackReservationTable" "dcim:rackreservation_list";
    entry "location" "Location" "LocationFilterSet" "LocationTable"
      "dcim:location_list";
    entry "devicetype" "DeviceType" "DeviceTypeFilterSet" "DeviceTypeTable"
      "dcim:devicetype_list";
    entry "device" "Device" "DeviceFilterSet" "DeviceTable" "dcim:device_list";
    entry "moduletype" "ModuleType" "ModuleTypeFilterSet" "ModuleTypeTable"
      "dcim:moduletype_list";
    entry "module" "Module" "ModuleFilterSet" "ModuleTable" "dcim:module_list";
    entry "virtualchassis" "VirtualChassis" "VirtualChassisFilterSet"
      "VirtualChassisTable" "dcim:virtualchassis_list";
    entry "cable" "Cable" "CableFilterSet" "CableTable" "dcim:cable_list";
    entry "powerfeed" "PowerFeed" "PowerFeedFilterSet" "PowerFeedTable"
      "dcim:powerfeed_list" ].

Definition IPAM_TYPES : list (string * SearchType) :=
  [ entry "vrf" "VRF" "VRFFilterSet" "VRFTable" "ipam:vrf_list";
    entry "aggregate" "Aggregate" "AggregateFilterSet" "AggregateTable"
      "ipam:aggregate_list";
    entry "prefix" "Prefix" "PrefixFilterSet" "PrefixTable" "ipam:prefix_list";
    entry "ipaddress" "IPAddress" "IPAddressFilterSet" "IPAddressTable"
      "ipam:ipaddress_list";
    entry "vlan" "VLAN" "VLANFilterSet" "VLANTable" "ipam:vlan_list";
    entry "asn" "ASN" "ASNFilterSet" "ASNTable" "ipam:asn_list";
    entry "service" "Service" "ServiceFilterSet" "ServiceTable"
      "ipam:service_list" ].

Definition TENANCY_TYPES : list (string * SearchType) :=
  [ entry "tenant" "Tenant" "TenantFilterSet" "TenantTable"
      "tenancy:tenant_list";
    entry "contact" "Contact" "ContactFilterSet" "ContactTable"
      "tenancy:contact_list" ].

Definition VIRTUALIZATION_TYPES : list (string * SearchType) :=
  [ entry "cluster" "Cluster" "ClusterFilterSet" "ClusterTable"
      "virtualization:cluster_list";
    entry "virtualmachine" "VirtualMachine" "VirtualMachineFilterSet"
      "VirtualMachineTable" "virtualization:virtualmachine_list" ].

Definition SEARCH_TYPE_HIERARCHY
  : list (string * list (string * SearchType)) :=
  [ ("Circuits", CIRCUIT_TYPES);
    ("DCIM", DCIM_TYPES);
    ("IPAM", IPAM_TYPES);
    ("Tenancy", TENANCY_TYPES);
    ("Virtualization", VIRTUALIZATION_TYPES) ].

Section Build.

Variable Item : Type.

(** [d.get(k)] on a dictionary with values of any type. *)
Fixpoint lookup (d : list (string * Item)) (k : string) : option Item :=
  match d with
  | [] => None
  | (k', v) :: tl => if String.eqb k k' then Some v else lookup tl k
  end.

(** [d[k] = v]: an existing key keeps its place, a new one goes last. *)
Fixpoint assign (d : list (string * Item)) (k : string) (v : Item)
  : list (string * Item) :=
  match d with
  | [] => [(k, v)]
  | (k', v') :: tl =>
      if String.eqb k k' then (k', v) :: tl else (k', v') :: assign tl k v
  end.

(** [result[name] = items] for one [(name, items)] of [app_types.items()]. *)
Definition assign_item (result : list (string * Item)) (item : string * Item)
  : list (string * Item) :=
  assign result (fst item) (snd item).

(** The body of [build_search_types], for the hierarchy it is run on. *)
Definition build_from (hierarchy : list (string * list (string * Item)))
  : list (string * Item) :=
  fold_left
    (fun result app_types => fold_left assign_item app_types result)
    (map snd hierarchy) [].

End Build.

(** [build_search_types] *)
Definition build_search_types : list (string * SearchType) :=
  build_from SearchType SEARCH_TYPE_HIERARCHY.

End Constants.

(** ** Vocabulary of the statements *)

(** [v[k]] for a value that may or may not be a mapping. *)
Definition value_at (v : json) (k : string) : option json :=
  match v with
  | JObj d => get d k
  | _ => None
  end.

(** [c] comes strictly before [d] in [(weight, name)] order. *)
Definition precedes (c d : ConfigContext) : Prop :=
  (weight c < weight d)%N
  \/ (weight c = weight d /\ String.ltb (name c) (name d) = true).

(** The rows of the table that apply to [self]. *)
Definition matching (applies : ConfigContext -> ConfigContextModel -> bool)
    (self : ConfigContextModel) (db : database) : list ConfigContext :=
  List.filter (fun c => applies c self) (rows db).

(** The mapping a row holds (the empty one for a row that holds none). *)
Definition payload (c : ConfigContext) : dict :=
  match data c with
  | JObj m => m
  | _ => []
  end.

(** No value stored directly under a key of [d] is itself a mapping. *)
Definition flat (d : dict) : Prop :=
  forall (k : string) (v : json), get d k = Some v -> is_dict v = false.

(** The model names recorded for an app label under a feature. *)
Definition models_of (registry : model_features) (feature app_label : string)
  : gset string :=
  default ∅ (default ∅ (registry !! feature) !! app_label).

(** Every supported feature has its bucket. *)
Definition has_buckets (features : list string) (registry : model_features)
  : Prop :=
  forall feature, feature ∈ features -> is_Some (registry !! feature).

(** The text of the error for an unsupported feature name. *)
Definition invalid_feature (feature : string) : exn :=
  ValueError (feature ++ " is not a valid extras feature!").

(** The keys of a dictionary after an assignment to [k]. *)
Definition add_key (ks : list string) (k : string) : list string :=
  if existsb (String.eqb k) ks then ks else ks ++ [k].

(** One round of the loop of [get_query]. *)
Definition disjunct (query : Q) (item : string * gset string) : Q :=
  or_ query (Q_lookup (fst item) (snd item)).

(** Whether the disjunct built from [item] selects [ct]. *)
Definition item_selects (ct : string * string) (item : string * gset string)
  : bool :=
  String.eqb (fst item) (fst ct) && bool_decide (snd ct ∈ snd item).

(** Whether character [c] occurs in [s]. *)
Fixpoint has_char (c : ascii) (s : string) : bool :=
  match s with
  | EmptyString => false
  | String c' tl => Ascii.eqb c' c || has_char c tl
  end.

(** What [image_upload] puts in front of the file name. *)
Definition upload_prefix (instance : Uploads.ImageAttachment) : string :=
  "image-attachments/" ++ Uploads.content_type_name instance ++ "_"
  ++ Uploads.str (Uploads.object_id instance) ++ "_".

(** The registry after [model_name] is added under [feature] and
    [app_label]; a registry without a bucket for [feature] stays as it is. *)
Definition note_model (feature app_label model_name : string)
    (registry : model_features) : model_features :=
  alter (fun bucket =>
           <[app_label := default ∅ (bucket !! app_label) ∪ {[model_name]}]>
             bucket)
        feature registry.

(** The registry after [model] is noted under each of [features]. *)
Definition note_features (model : Model) (features : list string)
    (registry : model_features) : model_features :=
  fold_left
    (fun registry feature =>
       note_model feature (app_label model) (model_name model) registry)
    features registry.

(** The registry after each registration of a list is noted. *)
Definition note_registrations (registrations : list (Model * list string))
    (registry : model_features) : model_features :=
  fold_left (fun registry r => note_features (fst r) (snd r) registry)
    registrations registry.

(** ** Sample data *)

Module Fixtures.

(** Every row applies to every object. *)
Definition everywhere (c : ConfigContext) (self : ConfigContextModel) : bool :=
  true.

Definition base : ConfigContext :=
  {| name := "base"; weight := 1000; is_active := true;
     data := JObj [("a", JNum 1); ("b", JObj [("x", JNum 1)])] |}.

Definition override : ConfigContext :=
  {| name := "override"; weight := 2000; is_active := true;
     data := JObj [("b", JObj [("y", JNum 2)]); ("c", JNum 3)] |}.

(** A row whose payload is [{"a": value}]. *)
Definition setting (name : string) (weight : N) (value : Z) : ConfigContext :=
  {| name := name; weight := weight; is_active := true;
     data := JObj [("a", JNum value)] |}.

Definition table (l : list ConfigContext) : database :=
  {| rows := l; queries := 0 |}.

(** A device without the annotated attribute. *)
Definition device (local : json) : ConfigContextModel :=
  {| pk := 1; config_context_data := None; local_context_data := local |}.

(** A device annotated with [config_context_data]. *)
Definition annotated (contexts local : json) : ConfigContextModel :=
  {| pk := 2; config_context_data := Some contexts;
     local_context_data := local |}.

Definition ntp (server : string) : json :=
  JObj [("ntp", JArr [JStr server])].

Definition features : list string := ["tags"; "webhooks"].

Definition site : Model := {| app_label := "dcim"; model_name := "site" |}.
Definition vlan : Model := {| app_label := "ipam"; model_name := "vlan" |}.

End Fixtures.

(** * Properties *)

(** ** Ordered dictionaries *)

Section DictFacts.

Lemma get_set_eq (d : dict) (k : string) (v : json) :
  get (set d k v) k = Some v.
Proof.
  induction d as [|[k' v'] tl IH]; simpl.
  - now rewrite String.eqb_refl.
  - destruct (String.eqb k k') eqn:E; simpl; rewrite E; auto.
Qed.

Lemma get_set_ne (d : dict) (k k' : string) (v : json) :
  k <> k' -> get (set d k' v) k = get d k.
Proof.
  intros Hne. induction d as [|[k0 v0] tl IH]; simpl.
  - apply String.eqb_neq in Hne. now rewrite Hne.
  - destruct (String.eqb k' k0) eqn:E; simpl.
    + apply String.eqb_eq in E. subst k0.
      apply String.eqb_neq in Hne. now rewrite Hne.
    + now rewrite IH.
Qed.

Lemma get_None_existsb (l : dict) (k : string) :
  existsb (String.eqb k) (keys l) = false -> get l k = None.
Proof.
  induction l as [|[k' v'] tl IH]; simpl; auto.
  intros H. apply orb_false_iff in H as [H1 H2].
  rewrite H1. auto.
Qed.

Lemma merge_value_None (v : json) : merge_value None v = v.
Proof. now destruct v. Qed.

Lemma merge_value_replace (o : option json) (v : json) :
  is_dict v = false -> merge_value o v = v.
Proof. destruct v; try discriminate; destruct o as [[]|]; reflexivity. Qed.

Lemma merge_value_onto_scalar (x v : json) :
  is_dict x = false -> merge_value (Some x) v = v.
Proof. destruct x; try discriminate; destruct v; reflexivity. Qed.

Lemma merge_value_dicts (original new : dict) :
  merge_value (Some (JObj original)) (JObj new) = JObj (deepmerge original new).
Proof.
  unfold deepmerge. simpl. f_equal.
  enough (H : forall merged,
             (fix items (merged : dict) (l : list (string * json)) : dict :=
                match l with
                | [] => merged
                | (key, val) :: tl =>
                    items (set merged key (merge_value (get original key) val)) tl
                end) merged new = merge_items original merged new)
    by apply H.
  induction new as [|[key val] tl IH]; intros merged; simpl.
  - reflexivity.
  - apply IH.
Qed.

(** What a key maps to after the loop of the merge. *)
Lemma get_merge_items (original : dict) (l : dict) :
  wf_dict l = true ->
  forall (merged : dict) (k : string),
    get (merge_items original merged l) k =
    match get l k with
    | Some v => Some (merge_value (get original k) v)
    | None => get merged k
    end.
Proof.
  unfold wf_dict.
  induction l as [|[key val] tl IH]; simpl; intros Hwf merged k; auto.
  apply andb_true_iff in Hwf as [Hfresh Hwf].
  apply negb_true_iff in Hfresh.
  rewrite (IH Hwf).
  destruct (String.eqb k key) eqn:E.
  - apply String.eqb_eq in E. subst key.
    rewrite (get_None_existsb tl k Hfresh). apply get_set_eq.
  - apply String.eqb_neq in E.
    destruct (get tl k); auto. now apply get_set_ne.
Qed.

Lemma get_deepmerge (original new : dict) (k : string) :
  wf_dict new = true ->
  get (deepmerge original new) k =
  match get new k with
  | Some v => Some (merge_value (get original k) v)
  | None => get original k
  end.
Proof. intros H. unfold deepmerge. now apply get_merge_items. Qed.

Lemma deepmerge_empty_r (original : dict) : deepmerge original [] = original.
Proof. reflexivity. Qed.

Lemma set_fresh (d : dict) (k : string) (v : json) :
  existsb (String.eqb k) (keys d) = false -> set d k v = d ++ [(k, v)].
Proof.
  induction d as [|[k' v'] tl IH]; simpl; auto.
  intros H. apply orb_false_iff in H as [H1 H2].
  rewrite H1. now rewrite IH.
Qed.

(** Merging into a dictionary that shares no key with [l] appends [l]. *)
Lemma merge_items_fresh (l : dict) :
  forall merged : dict,
    wf_dict (merged ++ l) = true ->
    merge_items [] merged l = merged ++ l.
Proof.
  unfold wf_dict, keys.
  induction l as [|[key val] tl IH]; simpl; intros merged Hwf.
  - now rewrite app_nil_r.
  - rewrite merge_value_None.
    assert (Hfresh : existsb (String.eqb key) (keys merged) = false).
    { clear IH. induction merged as [|[k0 v0] m IHm]; simpl in *; auto.
      apply andb_true_iff in Hwf as [H1 H2].
      apply negb_true_iff in H1.
      rewrite map_app, existsb_app in H1. simpl in H1.
      apply orb_false_iff in H1 as [_ H1].
      apply orb_false_iff in H1 as [H1 _].
      rewrite String.eqb_sym, H1. simpl. now apply IHm. }
    rewrite (set_fresh _ _ _ Hfresh).
    rewrite IH; rewrite <- app_assoc; simpl; auto.
Qed.

Lemma deepmerge_empty_l (new : dict) :
  wf_dict new = true -> deepmerge [] new = new.
Proof. intros H. unfold deepmerge. now apply (merge_items_fresh new []). Qed.

Lemma existsb_keys_set (d : dict) (k k' : string) (v : json) :
  existsb (String.eqb k) (keys (set d k' v)) =
  existsb (String.eqb k) (keys d) || String.eqb k k'.
Proof.
  induction d as [|[k0 v0] tl IH]; simpl.
  - now rewrite orb_false_r.
  - destruct (String.eqb k' k0) eqn:E; simpl.
    + apply String.eqb_eq in E. subst k0.
      destruct (String.eqb k k'); simpl; auto. now rewrite orb_false_r.
    + rewrite IH. now rewrite orb_assoc.
Qed.

Lemma wf_dict_set (d : dict) (k : string) (v : json) :
  wf_dict d = true -> wf_dict (set d k v) = true.
Proof.
  unfold wf_dict.
  induction d as [|[k0 v0] tl IH]; simpl; auto.
  intros H. apply andb_true_iff in H as [Hfresh Hwf].
  destruct (String.eqb k k0) eqn:E; simpl.
  - now rewrite Hfresh, Hwf.
  - fold (keys (set tl k v)). rewrite existsb_keys_set.
    rewrite String.eqb_sym in E. rewrite E, orb_false_r.
    fold (keys tl) in Hfresh. rewrite Hfresh. simpl. now apply IH.
Qed.

Lemma wf_dict_merge_items (original l : dict) :
  forall merged : dict,
    wf_dict merged = true -> wf_dict (merge_items original merged l) = true.
Proof.
  induction l as [|[key val] tl IH]; simpl; intros merged H; auto.
  apply IH. now apply wf_dict_set.
Qed.

Lemma wf_dict_deepmerge (original new : dict) :
  wf_dict original = true -> wf_dict (deepmerge original new) = true.
Proof. apply wf_dict_merge_items. Qed.

(** *** Key order *)

Lemma keys_set (d : dict) (k : string) (v : json) :
  keys (set d k v) = add_key (keys d) k.
Proof.
  unfold add_key. induction d as [|[k0 v0] tl IH]; simpl; auto.
  destruct (String.eqb k k0) eqn:E; simpl; auto.
  rewrite IH. fold (keys tl).
  now destruct (existsb (String.eqb k) (keys tl)).
Qed.

Lemma keys_merge_items (original l : dict) :
  forall merged : dict,
    keys (merge_items original merged l) = fold_left add_key (keys l) (keys merged).
Proof.
  induction l as [|[key val] tl IH]; simpl; intros merged; auto.
  now rewrite IH, keys_set.
Qed.

Lemma existsb_add_key (x k : string) (ks : list string) :
  existsb (String.eqb x) (add_key ks k) =
  existsb (String.eqb x) ks || String.eqb x k.
Proof.
  unfold add_key. destruct (existsb (String.eqb k) ks) eqn:E.
  - destruct (String.eqb x k) eqn:Ex; [|now rewrite orb_false_r].
    apply String.eqb_eq in Ex. subst x. now rewrite E.
  - rewrite existsb_app. simpl. now rewrite orb_false_r.
Qed.

Lemma existsb_add_keys (x : string) (l : list string) :
  forall ks : list string,
    existsb (String.eqb x) (fold_left add_key l ks) =
    existsb (String.eqb x) ks || existsb (String.eqb x) l.
Proof.
  induction l as [|k tl IH]; simpl; intros ks.
  - now rewrite orb_false_r.
  - rewrite IH, existsb_add_key. now rewrite orb_assoc.
Qed.

Lemma add_keys_add_key (a b : list string) (x : string) :
  fold_left add_key (add_key b x) a = add_key (fold_left add_key b a) x.
Proof.
  unfold add_key at 2. destruct (existsb (String.eqb x) b) eqn:E.
  - unfold add_key at 2. now rewrite existsb_add_keys, E, orb_true_r.
  - now rewrite fold_left_app.
Qed.

Lemma add_keys_assoc (c : list string) :
  forall a b : list string,
    fold_left add_key c (fold_left add_key b a) =
    fold_left add_key (fold_left add_key c b) a.
Proof.
  induction c as [|x tl IH]; simpl; intros a b; auto.
  now rewrite <- IH, add_keys_add_key.
Qed.

(** Dictionaries with the same keys in the same order and the same value
    under every key are the same. *)
Lemma dict_ext (d1 : dict) :
  forall d2 : dict,
    wf_dict d1 = true ->
    keys d1 = keys d2 ->
    (forall k, get d1 k = get d2 k) ->
    d1 = d2.
Proof.
  unfold wf_dict.
  induction d1 as [|[k1 v1] tl1 IH]; intros [|[k2 v2] tl2] Hwf Hkeys Hget;
    try discriminate; auto.
  simpl in Hkeys. injection Hkeys as <- Hkeys.
  simpl in Hwf. apply andb_true_iff in Hwf as [Hfresh Hwf].
  apply negb_true_iff in Hfresh.
  assert (Hv : v1 = v2).
  { specialize (Hget k1). simpl in Hget. rewrite String.eqb_refl in Hget.
    congruence. }
  subst v2. f_equal. apply IH; auto.
  intros k. specialize (Hget k). simpl in Hget.
  destruct (String.eqb k k1) eqn:E; auto.
  apply String.eqb_eq in E. subst k.
  rewrite (get_None_existsb tl1 k1 Hfresh).
  symmetry. apply get_None_existsb. unfold keys in *. now rewrite <- Hkeys.
Qed.

End DictFacts.

(** ** The resolver, step by step *)

Section ResolverFacts.

Variable applies : ConfigContext -> ConfigContextModel -> bool.

Lemma merge_contexts_app (l1 l2 : list json) :
  forall data : dict,
    merge_contexts data (l1 ++ l2) =
    match merge_contexts data l1 with
    | Ok data' => merge_contexts data' l2
    | Raise e => Raise e
    end.
Proof.
  induction l1 as [|c tl IH]; intros data0; simpl; auto.
  destruct (call_deepmerge data0 c); auto.
Qed.

Lemma merge_contexts_total (l : list json) :
  Forall (fun c => is_dict c = true) l ->
  forall data : dict, exists r, merge_contexts data l = Ok r.
Proof.
  induction 1 as [|c tl Hc _ IH]; intros data0; simpl.
  - now exists data0.
  - destruct c; try discriminate. simpl. apply IH.
Qed.

(** The method is the fold over [inherited_contexts] followed by the local
    merge; the table is queried exactly when the attribute is missing. *)
Lemma get_config_context_unfold (self : ConfigContextModel) (db : database) :
  get_config_context applies self db =
  (match inherited_contexts applies self db with
   | Ok l =>
       match merge_contexts [] l with
       | Ok data =>
           if truthy (local_context_data self)
           then call_deepmerge data (local_context_data self)
           else Ok data
       | Raise e => Raise e
       end
   | Raise e => Raise e
   end,
   match config_context_data self with
   | Some _ => db
   | None => {| rows := rows db; queries := S (queries db) |}
   end).
Proof.
  unfold get_config_context, inherited_contexts, bind, lift, ret, get_for_object.
  destruct (config_context_data self) as [v|]; simpl.
  - destruct (iterate _); auto.
    destruct (merge_contexts [] a); auto.
    destruct (truthy (local_context_data self)); auto.
  - destruct (merge_contexts [] _); auto.
    destruct (truthy (local_context_data self)); auto.
Qed.

(** On payloads that are mappings the loop is the left fold of [deepmerge]. *)
Lemma merge_contexts_fold (payloads : list dict) :
  forall acc : dict,
    merge_contexts acc (map JObj payloads) = Ok (fold_left deepmerge payloads acc).
Proof.
  induction payloads as [|m tl IH]; intros acc; simpl; auto.
Qed.

Lemma clean_local_cases (self : ConfigContextModel) :
  ConfigContextModel_clean self = Ok tt ->
  truthy (local_context_data self) = false
  \/ exists l, local_context_data self = JObj l.
Proof.
  unfold ConfigContextModel_clean.
  destruct (truthy (local_context_data self)); auto.
  destruct (local_context_data self); simpl; try discriminate.
  right. eauto.
Qed.

End ResolverFacts.

(** ** The order of application *)

Section Ordering.

Lemma string_leb_cases (a b : string) :
  String.leb a b = true <-> a = b \/ String_as_OT.lt a b.
Proof.
  unfold String.leb.
  destruct (String.compare a b) eqn:E; split; auto.
  - intros _. left. now apply String_as_OT.cmp_eq.
  - intros _. right. now apply String_as_OT.cmp_lt.
  - discriminate.
  - intros [H | H].
    + apply String_as_OT.cmp_eq in H. unfold String_as_OT.cmp in H. congruence.
    + apply String_as_OT.cmp_lt in H. unfold String_as_OT.cmp in H. congruence.
Qed.

Lemma string_leb_trans (a b c : string) :
  String.leb a b = true -> String.leb b c = true -> String.leb a c = true.
Proof.
  rewrite !string_leb_cases.
  intros [-> | Hab] [-> | Hbc]; auto.
  right. eapply String_as_OT.lt_trans; eauto.
Qed.

Lemma string_ltb_not_leb (a b : string) :
  String.ltb a b = true -> String.leb b a = false.
Proof.
  unfold String.ltb, String.leb. rewrite (String.compare_antisym a b).
  destruct (String.compare b a); simpl; intros H; auto; discriminate.
Qed.

Lemma ordering_spec (a b : ConfigContext) :
  ordering a b = true <->
  (weight a < weight b)%N
  \/ (weight a = weight b /\ String.leb (name a) (name b) = true).
Proof.
  unfold ordering.
  rewrite orb_true_iff, andb_true_iff, N.ltb_lt, N.eqb_eq. tauto.
Qed.

Lemma ordering_total (a b : ConfigContext) :
  ordering a b = false -> ordering b a = true.
Proof.
  intros H. apply ordering_spec.
  destruct (N.lt_trichotomy (weight a) (weight b)) as [Hlt | [Heq | Hgt]].
  - assert (ordering a b = true) by (apply ordering_spec; auto). congruence.
  - right. split; auto.
    destruct (String.leb_total (name a) (name b)) as [Hle | Hle]; auto.
    assert (ordering a b = true) by (apply ordering_spec; auto). congruence.
  - auto.
Qed.

Lemma ordering_trans (a b c : ConfigContext) :
  ordering a b = true -> ordering b c = true -> ordering a c = true.
Proof.
  rewrite !ordering_spec.
  intros [Hab | [Hab Hn1]] [Hbc | [Hbc Hn2]].
  - left. lia.
  - left. lia.
  - left. lia.
  - right. split; [congruence|]. eapply string_leb_trans; eauto.
Qed.

Lemma precedes_not_after (c d : ConfigContext) :
  precedes c d -> ordering d c = false.
Proof.
  intros Hp. destruct (ordering d c) eqn:E; auto.
  apply ordering_spec in E.
  destruct Hp as [Hlt | [Heq Hlt]]; destruct E as [E | [E Hle]]; try lia.
  apply string_ltb_not_leb in Hlt. congruence.
Qed.

Lemma insert_ordered_perm (c : ConfigContext) (l : list ConfigContext) :
  Permutation (c :: l) (insert_ordered c l).
Proof.
  induction l as [|x tl IH]; simpl; auto.
  destruct (ordering c x); auto.
  rewrite perm_swap. now constructor.
Qed.

Lemma order_by_perm (l : list ConfigContext) : Permutation l (order_by l).
Proof.
  induction l as [|x tl IH]; simpl; auto.
  rewrite <- insert_ordered_perm. now constructor.
Qed.

Lemma insert_ordered_sorted (c : ConfigContext) (l : list ConfigContext) :
  StronglySorted (fun a b => ordering a b = true) l ->
  StronglySorted (fun a b => ordering a b = true) (insert_ordered c l).
Proof.
  induction 1 as [|x tl Hs IH Hall]; simpl.
  - repeat constructor.
  - destruct (ordering c x) eqn:E.
    + constructor; [now constructor|].
      constructor; auto.
      eapply List.Forall_impl; [|exact Hall].
      intros y Hy. eapply ordering_trans; eauto.
    + constructor; auto.
      apply (Permutation_Forall (insert_ordered_perm c tl)).
      constructor; auto. now apply ordering_total.
Qed.

Lemma order_by_sorted (l : list ConfigContext) :
  StronglySorted (fun a b => ordering a b = true) (order_by l).
Proof.
  induction l as [|x tl IH]; simpl.
  - constructor.
  - now apply insert_ordered_sorted.
Qed.

Lemma sorted_suffix (l1 l2 : list ConfigContext) :
  StronglySorted (fun a b => ordering a b = true) (l1 ++ l2) ->
  StronglySorted (fun a b => ordering a b = true) l2.
Proof.
  induction l1 as [|x tl IH]; simpl; auto.
  intros H. apply StronglySorted_inv in H as [H _]. auto.
Qed.

End Ordering.

(** ** Validation *)

Section Validation.

(** C5: [ConfigContext.clean] raises a validation error keyed to the [data]
    field exactly when the stored value is not a JSON object.  The list
    [["not", "an", "object"]] is rejected; the empty object is accepted, and
    merging it anywhere in the sequence of contexts changes nothing. *)
Theorem config_context_clean_requires_object :
  (forall c : ConfigContext,
      (exists m, ConfigContext_clean c = Raise (ValidationError "data" m))
      <-> is_dict (data c) = false)
  /\ (forall c : ConfigContext,
        ConfigContext_clean c = Ok tt <-> is_dict (data c) = true)
  /\ (forall n w a,
        ConfigContext_clean
          {| name := n; weight := w; is_active := a;
             data := JArr [JStr "not"; JStr "an"; JStr "object"] |}
        = Raise (ValidationError "data" message))
  /\ (forall n w a,
        ConfigContext_clean
          {| name := n; weight := w; is_active := a; data := JObj [] |}
        = Ok tt)
  /\ (forall (acc : dict) (before after : list json),
        merge_contexts acc (before ++ JObj [] :: after)
        = merge_contexts acc (before ++ after)).
Proof.
  repeat split.
  - intros [m H]. unfold ConfigContext_clean in H.
    destruct (is_dict (data c)); simpl in H; [discriminate | reflexivity].
  - intros H. exists message. unfold ConfigContext_clean. now rewrite H.
  - unfold ConfigContext_clean.
    destruct (is_dict (data c)); simpl; [reflexivity | discriminate].
  - intros H. unfold ConfigContext_clean. now rewrite H.
  - intros acc before after. rewrite !merge_contexts_app.
    destruct (merge_contexts acc before); reflexivity.
Qed.

(** C6, as the code has it: [ConfigContextModel.clean] raises a validation
    error keyed to [local_context_data] exactly when the value is truthy and
    not a JSON object; null, [false], [0], the empty string, the empty list
    and every object raise nothing.  The resolver goes by the same test: a
    falsy value is resolved as null local data is, over the same rows; and,
    the inherited payloads being JSON objects, [clean] accepts exactly the
    values on which [get_config_context] returns instead of raising. *)
Theorem local_context_clean_guarded :
  forall self : ConfigContextModel,
    ((exists m,
         ConfigContextModel_clean self
         = Raise (ValidationError "local_context_data" m))
     <-> truthy (local_context_data self) = true
         /\ is_dict (local_context_data self) = false)
    /\ (ConfigContextModel_clean self = Ok tt
        <-> truthy (local_context_data self) = false
            \/ is_dict (local_context_data self) = true)
    /\ (forall (applies : ConfigContext -> ConfigContextModel -> bool)
               (db : database),
          truthy (local_context_data self) = false ->
          fst (get_config_context applies self db)
          = fst (get_config_context (fun c _ => applies c self)
                   {| pk := pk self;
                      config_context_data := config_context_data self;
                      local_context_data := JNull |} db))
    /\ (forall (applies : ConfigContext -> ConfigContextModel -> bool)
               (db : database) (payloads : list dict),
          inherited_contexts applies self db = Ok (map JObj payloads) ->
          (ConfigContextModel_clean self = Ok tt
           <-> exists r, fst (get_config_context applies self db) = Ok r)).
Proof.
  intros self. split; [|split; [|split]].
  - unfold ConfigContextModel_clean.
    destruct (truthy (local_context_data self));
      destruct (is_dict (local_context_data self)); simpl;
      (split; [ intros [m H]; try discriminate H; auto
              | intros [H1 H2]; try discriminate; eauto ]).
  - unfold ConfigContextModel_clean.
    destruct (truthy (local_context_data self));
      destruct (is_dict (local_context_data self)); simpl;
      (split; [ intros H; try discriminate H; auto
              | intros [H|H]; try discriminate; auto ]).
  - intros applies db Hfalsy.
    rewrite !get_config_context_unfold. unfold inherited_contexts. simpl.
    now rewrite Hfalsy.
  - intros applies db payloads Hl.
    rewrite get_config_context_unfold, Hl, merge_contexts_fold. simpl.
    unfold ConfigContextModel_clean.
    destruct (truthy (local_context_data self)) eqn:Ht; simpl.
    + destruct (local_context_data self); simpl;
        (split; [ intros H; try discriminate H; eauto
                | intros [r H]; try discriminate H; auto ]).
    + split; eauto.
Qed.

(** C6, as stated, fails: the empty list and the empty string are present,
    are not objects, and are accepted without any error. *)
Lemma local_context_clean_accepts_empty_list :
  ConfigContextModel_clean (Fixtures.device (JArr [])) = Ok tt
  /\ ConfigContextModel_clean (Fixtures.device (JStr "")) = Ok tt
  /\ is_dict (JArr []) = false /\ is_dict (JStr "") = false.
Proof. repeat split. Qed.

End Validation.

Lemma local_context_clean_guarded_witness :
  fst (get_config_context Fixtures.everywhere (Fixtures.device (JArr []))
         (Fixtures.table [Fixtures.base]))
  = fst (get_config_context
           (fun c _ => Fixtures.everywhere c (Fixtures.device (JArr [])))
           {| pk := pk (Fixtures.device (JArr []));
              config_context_data :=
                config_context_data (Fixtures.device (JArr []));
              local_context_data := JNull |}
           (Fixtures.table [Fixtures.base]))
  /\ (ConfigContextModel_clean (Fixtures.device (JArr [JNum 1])) = Ok tt
      <-> exists r,
            fst (get_config_context Fixtures.everywhere
                   (Fixtures.device (JArr [JNum 1]))
                   (Fixtures.table [Fixtures.base])) = Ok r).
Proof.
  split.
  - apply (proj1 (proj2 (proj2
             (local_context_clean_guarded (Fixtures.device (JArr [])))))
             Fixtures.everywhere (Fixtures.table [Fixtures.base])).
    reflexivity.
  - apply (proj2 (proj2 (proj2
             (local_context_clean_guarded (Fixtures.device (JArr [JNum 1])))))
             Fixtures.everywhere (Fixtures.table [Fixtures.base])
             [ [("a", JNum 1); ("b", JObj [("x", JNum 1)])] ]).
    reflexivity.
Defined.

(** ** Resolution *)

Section Resolution.

Variable applies : ConfigContext -> ConfigContextModel -> bool.

Lemma wf_top (d : dict) : wf (JObj d) = true -> wf_dict d = true.
Proof. simpl. intros H. now apply andb_true_iff in H as [H _]. Qed.

(** C7: when the inherited payloads are JSON objects and the local data has
    passed [clean], [get_config_context] returns, and what it returns is a
    mapping.  With the local data absent or empty the mapping is the
    deep-merge of the inherited payloads, folded from the empty mapping in
    their order, and nothing else; a local object is merged onto that fold;
    with nothing inherited and no local data the result is the empty
    mapping. *)
Theorem get_config_context_returns_mapping :
  forall (self : ConfigContextModel) (db : database) (payloads : list dict),
    inherited_contexts applies self db = Ok (map JObj payloads) ->
    ConfigContextModel_clean self = Ok tt ->
    exists (r : dict) (db' : database),
      get_config_context applies self db = (Ok r, db')
      /\ (truthy (local_context_data self) = false ->
          r = fold_left deepmerge payloads [])
      /\ (forall ld, local_context_data self = JObj ld ->
                     r = deepmerge (fold_left deepmerge payloads []) ld)
      /\ (payloads = [] -> truthy (local_context_data self) = false -> r = []).
Proof.
  intros self db payloads Hl Hclean.
  rewrite get_config_context_unfold, Hl, merge_contexts_fold.
  destruct (clean_local_cases self Hclean) as [Hfalsy | [ld Hld]].
  - rewrite Hfalsy. eexists _, _. split; [reflexivity|].
    split; [reflexivity|]. split.
    + intros ld Hld. rewrite Hld in Hfalsy.
      destruct ld; [reflexivity | discriminate].
    + intros -> _. reflexivity.
  - rewrite Hld. destruct ld as [|item ld].
    + eexists _, _. split; [reflexivity|].
      split; [reflexivity|]. split.
      * intros ld' Hld'. injection Hld' as <-. reflexivity.
      * intros -> _. reflexivity.
    + cbn [truthy call_deepmerge]. eexists _, _. split; [reflexivity|].
      split; [discriminate|]. split.
      * intros ld' Hld'. injection Hld' as <-. reflexivity.
      * discriminate.
Qed.

(** C2: a key that a non-empty local object sets to a scalar or an array is
    mapped to the local value in the result, whatever the inherited payloads
    hold for it. *)
Theorem local_context_data_wins :
  forall (self : ConfigContextModel) (db : database) (l : list json)
         (ld : dict) (k : string) (v : json),
    inherited_contexts applies self db = Ok l ->
    Forall (fun c => is_dict c = true) l ->
    local_context_data self = JObj ld ->
    wf_dict ld = true ->
    get ld k = Some v ->
    is_dict v = false ->
    exists (r : dict) (db' : database),
      get_config_context applies self db = (Ok r, db')
      /\ get r k = Some v.
Proof.
  intros self db l ld k v Hl Hdicts Hld Hwf Hk Hv.
  rewrite get_config_context_unfold, Hl.
  destruct (merge_contexts_total l Hdicts []) as [r Hr]. rewrite Hr, Hld.
  destruct ld as [|item ld]; [discriminate|].
  cbn [truthy call_deepmerge].
  eexists _, _. split; [reflexivity|].
  rewrite (get_deepmerge _ _ _ Hwf), Hk.
  now rewrite merge_value_replace.
Qed.

(** C10: an instance annotated with a null or empty [config_context_data]
    gets its local object back, or the empty mapping when it has none, and the
    table is left unqueried; the table is queried exactly when the attribute
    is missing. *)
Theorem empty_annotation_skips_store :
  forall (self : ConfigContextModel) (db : database),
    (forall v : json,
        config_context_data self = Some v ->
        truthy v = false ->
        ConfigContextModel_clean self = Ok tt ->
        wf (local_context_data self) = true ->
        get_config_context applies self db =
        (Ok match local_context_data self with JObj ld => ld | _ => [] end,
         db))
    /\ (queries (snd (get_config_context applies self db)) = queries db
        <-> config_context_data self <> None).
Proof.
  intros self db. split.
  - intros v Hattr Hfalsy Hclean Hwf.
    rewrite get_config_context_unfold. unfold inherited_contexts.
    rewrite Hattr, Hfalsy. simpl.
    destruct (clean_local_cases self Hclean) as [Hno | [ld Hld]].
    + rewrite Hno. destruct (local_context_data self); auto.
      destruct l; [reflexivity | discriminate].
    + rewrite Hld in *. destruct ld as [|item ld]; [reflexivity|].
      cbn [truthy call_deepmerge].
      now rewrite (deepmerge_empty_l _ (wf_top _ Hwf)).
  - rewrite get_config_context_unfold. simpl.
    destruct (config_context_data self); simpl; split; intros H;
      try congruence; lia.
Qed.

(** C3: with exactly the rows [base] and [override] applying, in whichever
    order the table holds them, and the local object [{"a": 9}], the result
    is [{"a": 9, "b": {"x": 1, "y": 2}, "c": 3}]. *)
Theorem end_to_end_example :
  forall (self : ConfigContextModel) (db : database),
    config_context_data self = None ->
    local_context_data self = JObj [("a", JNum 9)] ->
    Permutation [Fixtures.base; Fixtures.override]
      (List.filter (fun c => applies c self) (rows db)) ->
    fst (get_config_context applies self db) =
    Ok [("a", JNum 9);
        ("b", JObj [("x", JNum 1); ("y", JNum 2)]);
        ("c", JNum 3)].
Proof.
  intros self db Hattr Hlocal Hperm.
  rewrite get_config_context_unfold. unfold inherited_contexts.
  rewrite Hattr, Hlocal.
  apply Permutation_length_2_inv in Hperm as [-> | ->]; reflexivity.
Qed.

End Resolution.

Lemma get_config_context_returns_mapping_witness :
  exists (r : dict) (db' : database),
    get_config_context Fixtures.everywhere (Fixtures.device JNull)
      (Fixtures.table [Fixtures.override; Fixtures.base]) = (Ok r, db')
    /\ (truthy JNull = false ->
        r = fold_left deepmerge
              [ [("a", JNum 1); ("b", JObj [("x", JNum 1)])];
                [("b", JObj [("y", JNum 2)]); ("c", JNum 3)] ] [])
    /\ (forall ld, JNull = JObj ld ->
                   r = deepmerge
                         (fold_left deepmerge
                            [ [("a", JNum 1); ("b", JObj [("x", JNum 1)])];
                              [("b", JObj [("y", JNum 2)]); ("c", JNum 3)] ]
                            []) ld)
    /\ ([ [("a", JNum 1); ("b", JObj [("x", JNum 1)])];
          [("b", JObj [("y", JNum 2)]); ("c", JNum 3)] ] = [] ->
        truthy JNull = false -> r = []).
Proof.
  apply (get_config_context_returns_mapping Fixtures.everywhere
           (Fixtures.device JNull)
           (Fixtures.table [Fixtures.override; Fixtures.base])
           [ [("a", JNum 1); ("b", JObj [("x", JNum 1)])];
             [("b", JObj [("y", JNum 2)]); ("c", JNum 3)] ]).
  - reflexivity.
  - reflexivity.
Defined.

Lemma local_context_data_wins_witness :
  exists (r : dict) (db' : database),
    get_config_context Fixtures.everywhere
      (Fixtures.annotated (JArr [Fixtures.ntp "1.1.1.1"])
         (Fixtures.ntp "2.2.2.2"))
      (Fixtures.table []) = (Ok r, db')
    /\ get r "ntp" = Some (JArr [JStr "2.2.2.2"]).
Proof.
  apply (local_context_data_wins Fixtures.everywhere _ _
           [Fixtures.ntp "1.1.1.1"] [("ntp", JArr [JStr "2.2.2.2"])]).
  - reflexivity.
  - repeat constructor.
  - reflexivity.
  - reflexivity.
  - reflexivity.
  - reflexivity.
Defined.

Lemma empty_annotation_skips_store_witness :
  get_config_context Fixtures.everywhere
    (Fixtures.annotated JNull (Fixtures.ntp "2.2.2.2"))
    (Fixtures.table [Fixtures.base])
  = (Ok [("ntp", JArr [JStr "2.2.2.2"])], Fixtures.table [Fixtures.base]).
Proof.
  apply (proj1 (empty_annotation_skips_store Fixtures.everywhere
                  (Fixtures.annotated JNull (Fixtures.ntp "2.2.2.2"))
                  (Fixtures.table [Fixtures.base])) JNull);
    reflexivity.
Defined.

Lemma end_to_end_example_witness :
  fst (get_config_context Fixtures.everywhere
         (Fixtures.device (JObj [("a", JNum 9)]))
         (Fixtures.table [Fixtures.override; Fixtures.base])) =
  Ok [("a", JNum 9);
      ("b", JObj [("x", JNum 1); ("y", JNum 2)]);
      ("c", JNum 3)].
Proof.
  apply (end_to_end_example Fixtures.everywhere).
  - reflexivity.
  - reflexivity.
  - simpl. apply perm_swap.
Defined.

(** ** Precedence among inherited contexts *)

Section Precedence.

Variable applies : ConfigContext -> ConfigContextModel -> bool.

(** Once a key holds a non-mapping value [v], payloads that leave the key
    alone or set it to [v] again do not change it. *)
Lemma merge_contexts_keeps (k : string) (v : json) (l : list json) :
  is_dict v = false ->
  Forall (fun c => exists m, c = JObj m /\ wf_dict m = true
                             /\ (get m k = None \/ get m k = Some v)) l ->
  forall acc : dict,
    get acc k = Some v ->
    exists r, merge_contexts acc l = Ok r /\ get r k = Some v.
Proof.
  intros Hv. induction 1 as [|c tl (m & -> & Hwf & Hm) _ IH]; intros acc Hacc.
  - exists acc. auto.
  - simpl. apply IH. rewrite (get_deepmerge _ _ _ Hwf).
    destruct Hm as [-> | ->]; auto.
    now rewrite merge_value_replace.
Qed.

(** In a list sorted by [ordering], the value of the last row setting a key
    is what the fold leaves under that key, when that value is no mapping. *)
Lemma merge_sorted_last (k : string) (v : json) (d : ConfigContext)
      (rows : list ConfigContext) :
  StronglySorted (fun a b => ordering a b = true) rows ->
  (forall c, In c rows -> is_dict (data c) = true /\ wf (data c) = true) ->
  In d rows ->
  value_at (data d) k = Some v ->
  is_dict v = false ->
  (forall c, In c rows -> value_at (data c) k <> None ->
             c = d \/ ordering d c = false) ->
  forall acc : dict,
    exists r, merge_contexts acc (map data rows) = Ok r /\ get r k = Some v.
Proof.
  intros Hsorted Hvalid Hd Hk Hv Hlast acc.
  apply in_split in Hd as (l1 & l2 & ->).
  rewrite map_app, merge_contexts_app.
  destruct (merge_contexts_total (map data l1)) with (data := acc) as [acc1 ->].
  { apply List.Forall_forall. intros x Hx. apply in_map_iff in Hx as (c & <- & Hc).
    apply Hvalid. apply in_or_app. now left. }
  destruct (Hvalid d) as [Hdict Hwf]; [apply in_or_app; right; now left|].
  simpl. destruct (data d) as [| | | | |dd] eqn:Hdd; try discriminate.
  simpl in Hk. cbn [call_deepmerge].
  apply merge_contexts_keeps; auto.
  - apply List.Forall_forall. intros x Hx. apply in_map_iff in Hx as (c & <- & Hc).
    destruct (Hvalid c) as [Hcd Hcwf];
      [apply in_or_app; right; now right|].
    destruct (data c) as [| | | | |m] eqn:Hm; try discriminate.
    exists m. split; [reflexivity|]. split; [now apply wf_top|].
    destruct (get m k) as [x|] eqn:Hx; auto.
    right. destruct (Hlast c) as [-> | Hord].
    + apply in_or_app; right; now right.
    + rewrite Hm. simpl. congruence.
    + rewrite Hdd in Hm. injection Hm as <-. congruence.
    + apply sorted_suffix in Hsorted.
      apply StronglySorted_inv in Hsorted as [_ Hall].
      rewrite List.Forall_forall in Hall. specialize (Hall c Hc). congruence.
  - rewrite (get_deepmerge _ _ _ (wf_top _ Hwf)), Hk.
    now rewrite merge_value_replace.
Qed.

(** Rows fetched from the table: the last in [(weight, name)] order to set
    a key to a non-mapping decides the key, unless the local data sets it. *)
Lemma last_in_order_wins (self : ConfigContextModel) (db : database)
      (d : ConfigContext) (k : string) (v : json) :
  config_context_data self = None ->
  (forall c, In c (List.filter (fun c => applies c self) (rows db)) ->
             ConfigContext_clean c = Ok tt /\ wf (data c) = true) ->
  In d (List.filter (fun c => applies c self) (rows db)) ->
  value_at (data d) k = Some v ->
  is_dict v = false ->
  ConfigContextModel_clean self = Ok tt ->
  wf (local_context_data self) = true ->
  value_at (local_context_data self) k = None ->
  (forall c, In c (List.filter (fun c => applies c self) (rows db)) ->
             value_at (data c) k <> None -> c = d \/ precedes c d) ->
  exists (r : dict) (db' : database),
    get_config_context applies self db = (Ok r, db') /\ get r k = Some v.
Proof.
  intros Hattr Hvalid Hd Hk Hv Hclean Hwf Hlocal Hlast.
  set (matching := List.filter (fun c => applies c self) (rows db)) in *.
  assert (Hperm : Permutation matching (order_by matching))
    by apply order_by_perm.
  destruct (merge_sorted_last k v d (order_by matching)) with (acc := @nil (string * json))
    as (r & Hr & Hrk); auto.
  - apply order_by_sorted.
  - intros c Hc. apply (Permutation_in _ (Permutation_sym Hperm)) in Hc.
    destruct (Hvalid c Hc) as [Hcl Hcw]. split; auto.
    unfold ConfigContext_clean in Hcl.
    destruct (is_dict (data c)); [reflexivity | discriminate].
  - now apply (Permutation_in _ Hperm).
  - intros c Hc Hset. apply (Permutation_in _ (Permutation_sym Hperm)) in Hc.
    destruct (Hlast c Hc Hset) as [-> | Hp]; auto.
    right. now apply precedes_not_after.
  - rewrite get_config_context_unfold. unfold inherited_contexts.
    rewrite Hattr. fold matching. rewrite Hr.
    destruct (clean_local_cases self Hclean) as [-> | [ld Hld]].
    + eexists _, _. split; [reflexivity | exact Hrk].
    + rewrite Hld in *. destruct ld as [|item ld].
      * eexists _, _. split; [reflexivity | exact Hrk].
      * cbn [truthy call_deepmerge]. eexists _, _. split; [reflexivity|].
        rewrite (get_deepmerge _ _ _ (wf_top _ Hwf)).
        change (get (item :: ld) k = None) in Hlocal. now rewrite Hlocal.
Qed.

(** Payloads that do not set a key leave it as it is. *)
Lemma merge_contexts_untouched (k : string) (l : list json) :
  Forall (fun c => exists m, c = JObj m /\ wf_dict m = true
                             /\ get m k = None) l ->
  forall acc : dict,
    exists r, merge_contexts acc l = Ok r /\ get r k = get acc k.
Proof.
  induction 1 as [|c tl (m & -> & Hwf & Hm) _ IH]; intros acc.
  - exists acc. auto.
  - simpl. destruct (IH (deepmerge acc m)) as (r & Hr & Hk).
    exists r. split; [exact Hr|].
    now rewrite Hk, (get_deepmerge _ _ _ Hwf), Hm.
Qed.

(** On rows holding mappings the loop is the left fold of [deepmerge] over
    their payloads. *)
Lemma merge_rows_fold (l : list ConfigContext) :
  (forall c, In c l -> is_dict (data c) = true) ->
  forall acc : dict,
    merge_contexts acc (map data l) = Ok (fold_left deepmerge (map payload l) acc).
Proof.
  induction l as [|c tl IH]; intros Hdicts acc; simpl; auto.
  assert (Hc : is_dict (data c) = true) by (apply Hdicts; now left).
  destruct (data c) as [| | | | |m] eqn:E; try discriminate.
  assert (Hp : payload c = m) by (unfold payload; now rewrite E).
  rewrite Hp. simpl.
  apply IH. intros x Hx. apply Hdicts. now right.
Qed.

Lemma wf_get (d : dict) (k : string) (v : json) :
  wf (JObj d) = true -> get d k = Some v -> wf v = true.
Proof.
  simpl. intros H. apply andb_true_iff in H as [_ H]. revert H.
  induction d as [|[k' v'] tl IH]; simpl; [discriminate|].
  intros H. apply andb_true_iff in H as [Hv Htl].
  destruct (String.eqb k k'); auto. congruence.
Qed.

(** Rows fetched from the table, all distinct: the last row in
    [(weight, name)] order to set a key has its value merged into what the
    rows applied before it left under the key. *)
Lemma last_in_order_merges (self : ConfigContextModel) (db : database)
      (d : ConfigContext) (k : string) (v : json) :
  config_context_data self = None ->
  (forall c, In c (matching applies self db) ->
             ConfigContext_clean c = Ok tt /\ wf (data c) = true) ->
  In d (matching applies self db) ->
  value_at (data d) k = Some v ->
  ConfigContextModel_clean self = Ok tt ->
  wf (local_context_data self) = true ->
  value_at (local_context_data self) k = None ->
  List.NoDup (matching applies self db) ->
  (forall c, In c (matching applies self db) ->
             value_at (data c) k <> None -> c = d \/ precedes c d) ->
  exists (r : dict) (db' : database) (before after : list ConfigContext),
    order_by (matching applies self db) = before ++ d :: after
    /\ Forall (fun c => value_at (data c) k = None) after
    /\ get_config_context applies self db = (Ok r, db')
    /\ get r k
       = Some (merge_value
                 (get (fold_left deepmerge (map payload before) []) k) v).
Proof.
  intros Hattr Hvalid Hd Hk Hclean Hwf Hlocal Hnodup Hlast.
  assert (Hperm : Permutation (matching applies self db)
                    (order_by (matching applies self db)))
    by apply order_by_perm.
  assert (Hsorted := order_by_sorted (matching applies self db)).
  assert (Hnodup' := Permutation_NoDup Hperm Hnodup).
  assert (Hvalid' : forall c, In c (order_by (matching applies self db)) ->
                              is_dict (data c) = true /\ wf (data c) = true
                              /\ In c (matching applies self db)).
  { intros c Hc. apply (Permutation_in _ (Permutation_sym Hperm)) in Hc.
    destruct (Hvalid c Hc) as [Hcl Hcw]. repeat split; auto.
    unfold ConfigContext_clean in Hcl.
    destruct (is_dict (data c)); [reflexivity | discriminate]. }
  apply (Permutation_in _ Hperm) in Hd.
  apply in_split in Hd as (before & after & Hsplit).
  rewrite Hsplit in Hsorted, Hnodup', Hvalid'.
  assert (Hafter : Forall (fun c => value_at (data c) k = None) after).
  { apply List.Forall_forall. intros c Hc.
    destruct (value_at (data c) k) eqn:Hset; [exfalso | reflexivity].
    destruct (Hvalid' c) as (_ & _ & Hin);
      [apply in_or_app; right; now right|].
    destruct (Hlast c Hin) as [-> | Hp]; [congruence | |].
    - apply List.NoDup_remove_2 in Hnodup'. apply Hnodup'.
      apply in_or_app. now right.
    - apply precedes_not_after in Hp.
      apply sorted_suffix in Hsorted.
      apply StronglySorted_inv in Hsorted as [_ Hall].
      rewrite List.Forall_forall in Hall. specialize (Hall c Hc). congruence. }
  destruct (Hvalid' d) as (Hdd & Hdwf & _); [apply in_or_app; right; now left|].
  destruct (data d) as [| | | | |dd] eqn:Hdata; try discriminate.
  simpl in Hk.
  destruct (merge_contexts_untouched k (map data after))
    with (acc := deepmerge (fold_left deepmerge (map payload before) []) dd)
    as (r & Hr & Hrk).
  { apply List.Forall_forall. intros x Hx.
    apply in_map_iff in Hx as (c & <- & Hc).
    destruct (Hvalid' c) as (Hcd & Hcw & _);
      [apply in_or_app; right; now right|].
    rewrite List.Forall_forall in Hafter. specialize (Hafter c Hc).
    destruct (data c) as [| | | | |m]; try discriminate.
    exists m. repeat split; auto. now apply wf_top. }
  assert (Hfold : merge_contexts []
                    (map data (order_by (matching applies self db))) = Ok r).
  { rewrite Hsplit, map_app, merge_contexts_app.
    rewrite merge_rows_fold
      by (intros c Hc; apply Hvalid'; apply in_or_app; now left).
    simpl. rewrite Hdata. exact Hr. }
  assert (Hvalue : get r k
                   = Some (merge_value
                             (get (fold_left deepmerge (map payload before) []) k)
                             v)).
  { now rewrite Hrk, (get_deepmerge _ _ _ (wf_top _ Hdwf)), Hk. }
  rewrite get_config_context_unfold. unfold inherited_contexts.
  rewrite Hattr. fold (matching applies self db). rewrite Hfold.
  destruct (clean_local_cases self Hclean) as [-> | [ld Hld]].
  - exists r. eexists _, before, after. repeat split; auto.
  - rewrite Hld in *. destruct ld as [|item ld].
    + exists r. eexists _, before, after. repeat split; auto.
    + cbn [truthy call_deepmerge].
      eexists _, _, before, after. split; [exact Hsplit|].
      split; [exact Hafter|]. split; [reflexivity|].
      rewrite (get_deepmerge _ _ _ (wf_top _ Hwf)).
      change (get (item :: ld) k = None) in Hlocal. now rewrite Hlocal.
Qed.

End Precedence.

Section PrecedenceClaim.

Variable applies : ConfigContext -> ConfigContextModel -> bool.

(** C1, as the code has it.  The rows are fetched from the table, every
    applying row holds a JSON object, the local data has passed [clean] and
    does not set key [k], and [d] is an applying row that sets [k] to [v].
    When [v] is a scalar or an array: if the applying rows have pairwise
    distinct weights and no row setting [k] outweighs [d], the result maps
    [k] to [v]; and, more generally, if every other applying row setting [k]
    has a lower weight than [d], or the same weight and an earlier name, the
    result maps [k] to [v].  Whatever [v] is, the applying rows being
    distinct and [d] the last in this order to set [k]: the result holds
    under [k] the value [v] merged into what the rows applied before [d]
    left there; when both are mappings that is their deep-merge, key by key,
    and when only [v] is a mapping it is [v]. *)
Theorem highest_weight_then_name_wins :
  forall (self : ConfigContextModel) (db : database) (d : ConfigContext)
         (k : string) (v : json),
    config_context_data self = None ->
    (forall c, In c (matching applies self db) ->
               ConfigContext_clean c = Ok tt /\ wf (data c) = true) ->
    In d (matching applies self db) ->
    value_at (data d) k = Some v ->
    ConfigContextModel_clean self = Ok tt ->
    wf (local_context_data self) = true ->
    value_at (local_context_data self) k = None ->
    (is_dict v = false ->
     (forall c1 c2,
         In c1 (matching applies self db) ->
         In c2 (matching applies self db) ->
         weight c1 = weight c2 -> c1 = c2) ->
     (forall c, In c (matching applies self db) ->
                value_at (data c) k <> None -> (weight c <= weight d)%N) ->
     exists (r : dict) (db' : database),
       get_config_context applies self db = (Ok r, db') /\ get r k = Some v)
    /\ (is_dict v = false ->
        (forall c, In c (matching applies self db) ->
                   value_at (data c) k <> None -> c = d \/ precedes c d) ->
        exists (r : dict) (db' : database),
          get_config_context applies self db = (Ok r, db') /\ get r k = Some v)
    /\ (List.NoDup (matching applies self db) ->
        (forall c, In c (matching applies self db) ->
                   value_at (data c) k <> None -> c = d \/ precedes c d) ->
        exists (r : dict) (db' : database) (before after : list ConfigContext),
          order_by (matching applies self db) = before ++ d :: after
          /\ Forall (fun c => value_at (data c) k = None) after
          /\ get_config_context applies self db = (Ok r, db')
          /\ get r k
             = Some (merge_value
                       (get (fold_left deepmerge (map payload before) []) k)
                       v)
          /\ (forall ml md : dict,
                get (fold_left deepmerge (map payload before) []) k
                = Some (JObj ml) ->
                v = JObj md ->
                get r k = Some (JObj (deepmerge ml md))
                /\ forall k' : string,
                     get (deepmerge ml md) k' =
                     match get md k' with
                     | Some x => Some (merge_value (get ml k') x)
                     | None => get ml k'
                     end)
          /\ (forall md : dict,
                v = JObj md ->
                (forall ml : dict,
                    get (fold_left deepmerge (map payload before) []) k
                    <> Some (JObj ml)) ->
                get r k = Some (JObj md))).
Proof.
  intros self db d k v Hattr Hvalid Hd Hk Hclean Hwf Hlocal.
  split; [|split].
  - intros Hv Hdistinct Hmax.
    apply (last_in_order_wins applies self db d k v); auto.
    intros c Hc Hset.
    destruct (N.eq_dec (weight c) (weight d)) as [Heq | Hne].
    + left. now apply Hdistinct.
    + right. left. specialize (Hmax c Hc Hset). lia.
  - intros Hv Hlast. now apply (last_in_order_wins applies self db d k v).
  - intros Hnodup Hlast.
    destruct (last_in_order_merges applies self db d k v)
      as (r & db' & before & after & Hsplit & Hafter & Hrun & Hvalue); auto.
    exists r, db', before, after.
    split; [exact Hsplit|]. split; [exact Hafter|]. split; [exact Hrun|].
    split; [exact Hvalue|]. split.
    + intros ml md Hbefore ->. rewrite Hvalue, Hbefore, merge_value_dicts.
      split; [reflexivity|]. intros k'. apply get_deepmerge.
      destruct (Hvalid d Hd) as [_ Hdwf].
      destruct (data d) as [| | | | |dd]; try discriminate.
      apply wf_top. apply (wf_get dd k (JObj md) Hdwf Hk).
    + intros md -> Hnone. rewrite Hvalue. f_equal.
      destruct (get (fold_left deepmerge (map payload before) []) k)
        as [[| | | | |ml]|]; try reflexivity.
      now elim (Hnone ml).
Qed.

End PrecedenceClaim.

Lemma highest_weight_then_name_wins_witness :
  (exists (r : dict) (db' : database),
      get_config_context Fixtures.everywhere (Fixtures.device JNull)
        (Fixtures.table [Fixtures.setting "high" 2000 2;
                         Fixtures.setting "low" 1000 1]) = (Ok r, db')
      /\ get r "a" = Some (JNum 2))
  /\ (exists (r : dict) (db' : database),
        get_config_context Fixtures.everywhere (Fixtures.device JNull)
          (Fixtures.table [Fixtures.setting "beta" 1000 2;
                           Fixtures.setting "alpha" 1000 1]) = (Ok r, db')
        /\ get r "a" = Some (JNum 2))
  /\ (exists (r : dict) (db' : database) (before after : list ConfigContext),
          order_by (matching Fixtures.everywhere (Fixtures.device JNull) (Fixtures.table [Fixtures.override; Fixtures.base])) = before ++ Fixtures.override :: after
          /\ Forall (fun c => value_at (data c) "b" = None) after
          /\ get_config_context Fixtures.everywhere (Fixtures.device JNull) (Fixtures.table [Fixtures.override; Fixtures.base]) = (Ok r, db')
          /\ get r "b"
             = Some (merge_value
                       (get (fold_left deepmerge (map payload before) []) "b")
                       (JObj [("y", JNum 2)]))
          /\ (forall ml md : dict,
                get (fold_left deepmerge (map payload before) []) "b"
                = Some (JObj ml) ->
                (JObj [("y", JNum 2)]) = JObj md ->
                get r "b" = Some (JObj (deepmerge ml md))
                /\ forall k' : string,
                     get (deepmerge ml md) k' =
                     match get md k' with
                     | Some x => Some (merge_value (get ml k') x)
                     | None => get ml k'
                     end)
          /\ (forall md : dict,
                (JObj [("y", JNum 2)]) = JObj md ->
                (forall ml : dict,
                    get (fold_left deepmerge (map payload before) []) "b"
                    <> Some (JObj ml)) ->
                get r "b" = Some (JObj md))).
Proof.
  split; [|split].
  - apply (proj1 (highest_weight_then_name_wins Fixtures.everywhere
                    (Fixtures.device JNull)
                    (Fixtures.table [Fixtures.setting "high" 2000 2;
                                     Fixtures.setting "low" 1000 1])
                    (Fixtures.setting "high" 2000 2) "a" (JNum 2)
                    eq_refl
                    ltac:(simpl; intros c [<- | [<- | []]]; split; reflexivity)
                    ltac:(simpl; auto)
                    eq_refl eq_refl eq_refl eq_refl) eq_refl).
    + simpl. intros c1 c2 [<- | [<- | []]] [<- | [<- | []]] H;
        try reflexivity; discriminate H.
    + simpl. intros c [<- | [<- | []]] _; simpl; lia.
  - apply (proj1 (proj2 (highest_weight_then_name_wins Fixtures.everywhere
                    (Fixtures.device JNull)
                    (Fixtures.table [Fixtures.setting "beta" 1000 2;
                                     Fixtures.setting "alpha" 1000 1])
                    (Fixtures.setting "beta" 1000 2) "a" (JNum 2)
                    eq_refl
                    ltac:(simpl; intros c [<- | [<- | []]]; split; reflexivity)
                    ltac:(simpl; auto)
                    eq_refl eq_refl eq_refl eq_refl)) eq_refl).
    simpl. intros c [<- | [<- | []]] _.
    + now left.
    + right. right. split; reflexivity.
  - apply (proj2 (proj2 (highest_weight_then_name_wins Fixtures.everywhere
                    (Fixtures.device JNull)
                    (Fixtures.table [Fixtures.override; Fixtures.base])
                    Fixtures.override "b" (JObj [("y", JNum 2)])
                    eq_refl
                    ltac:(simpl; intros c [<- | [<- | []]]; split; reflexivity)
                    ltac:(simpl; auto)
                    eq_refl eq_refl eq_refl eq_refl))).
    + simpl. constructor.
      * simpl. intros [H | []]. discriminate H.
      * constructor; [simpl; tauto | constructor].
    + simpl. intros c [<- | [<- | []]] _.
      * now left.
      * right. left. reflexivity.
Defined.

(** C1, as stated, fails twice over.  With weights 1000 and 2000 both rows
    set key [b] to a mapping, and the result holds the merge of the two
    mappings, not the value of the heavier row; and a key that two rows set
    to scalars is decided by the local data when that sets it too. *)
Lemma highest_weight_value_not_returned :
  (exists r : dict,
      fst (get_config_context Fixtures.everywhere (Fixtures.device JNull)
             (Fixtures.table [Fixtures.base; Fixtures.override])) = Ok r
      /\ (weight Fixtures.base < weight Fixtures.override)%N
      /\ value_at (data Fixtures.base) "b" = Some (JObj [("x", JNum 1)])
      /\ value_at (data Fixtures.override) "b" = Some (JObj [("y", JNum 2)])
      /\ get r "b" = Some (JObj [("x", JNum 1); ("y", JNum 2)])
      /\ get r "b" <> value_at (data Fixtures.override) "b")
  /\ (exists r : dict,
        fst (get_config_context Fixtures.everywhere
               (Fixtures.device (JObj [("a", JNum 9)]))
               (Fixtures.table [Fixtures.setting "low" 1000 1;
                                Fixtures.setting "high" 2000 2])) = Ok r
        /\ get r "a" = Some (JNum 9)
        /\ get r "a" <> value_at (data (Fixtures.setting "high" 2000 2)) "a").
Proof.
  split.
  - eexists. split; [reflexivity|]. repeat split; try discriminate.
  - eexists. split; [reflexivity|]. repeat split; discriminate.
Qed.

(** ** Order of application *)

Section Algebra.

Lemma merge_value_over_flat (a : dict) (k : string) (x : json) :
  flat a -> merge_value (get a k) x = x.
Proof.
  intros Hflat. destruct (get a k) as [s|] eqn:E.
  - apply merge_value_onto_scalar. eauto.
  - apply merge_value_None.
Qed.

(** C9, as the model has it.  The loop is order-dependent: two payloads
    setting the same key give different results in the two orders.  Grouping
    is immaterial in two senses: merging a sequence in one go equals merging a
    prefix and then the rest; and [deepmerge] is associative when the first
    operand holds no mapping directly under a key, as the empty mapping the
    loop starts from does. *)
Theorem deepmerge_order_dependent :
  (exists (A : dict) (B C : json) (k : string),
      value_at B k <> None /\ value_at C k <> None
      /\ merge_contexts A [B; C] <> merge_contexts A [C; B])
  /\ (forall (acc : dict) (l1 l2 : list json),
        merge_contexts acc (l1 ++ l2) =
        match merge_contexts acc l1 with
        | Ok r => merge_contexts r l2
        | Raise e => Raise e
        end)
  /\ (forall (a b c : dict),
        flat a ->
        wf_dict a = true -> wf_dict b = true -> wf_dict c = true ->
        deepmerge (deepmerge a b) c = deepmerge a (deepmerge b c)).
Proof.
  split; [|split].
  - exists [], (JObj [("a", JNum 1)]), (JObj [("a", JNum 2)]), "a".
    repeat split; discriminate.
  - intros acc l1 l2. apply merge_contexts_app.
  - intros a b c Hflat Ha Hb Hc. apply dict_ext.
    { now apply wf_dict_deepmerge, wf_dict_deepmerge. }
    { unfold deepmerge. rewrite !keys_merge_items. apply add_keys_assoc. }
    intros k.
    rewrite (get_deepmerge (deepmerge a b) c k Hc).
    rewrite (get_deepmerge a (deepmerge b c) k (wf_dict_deepmerge b c Hb)).
    rewrite (get_deepmerge b c k Hc).
    rewrite (get_deepmerge a b k Hb).
    destruct (get c k) as [vc|]; destruct (get b k) as [vb|];
      rewrite ?merge_value_over_flat by assumption; auto.
    now rewrite merge_value_None.
Qed.

(** C9, as stated, fails: [deepmerge] is not associative.  A scalar in the
    middle operand cuts the first operand's mapping off from the third's. *)
Lemma deepmerge_not_associative :
  let A := [("k", JObj [("x", JNum 1)])] in
  let B := [("k", JNum 5)] in
  let C := [("k", JObj [("y", JNum 2)])] in
  deepmerge (deepmerge A B) C = [("k", JObj [("y", JNum 2)])]
  /\ deepmerge A (deepmerge B C) = [("k", JObj [("x", JNum 1); ("y", JNum 2)])]
  /\ deepmerge (deepmerge A B) C <> deepmerge A (deepmerge B C).
Proof. repeat split. discriminate. Qed.

End Algebra.

Lemma deepmerge_order_dependent_witness :
  deepmerge (deepmerge [("a", JNum 1)] [("b", JObj [("x", JNum 1)])])
    [("b", JObj [("y", JNum 2)]); ("a", JNum 9)]
  = deepmerge [("a", JNum 1)]
      (deepmerge [("b", JObj [("x", JNum 1)])]
         [("b", JObj [("y", JNum 2)]); ("a", JNum 9)]).
Proof.
  apply (proj2 (proj2 deepmerge_order_dependent)).
  - intros k v. simpl.
    destruct (String.eqb k "a"); intros H; [now injection H as <- | discriminate H].
  - reflexivity.
  - reflexivity.
  - reflexivity.
Defined.

(** ** The feature registry *)

Section RegistryFacts.

Variable EXTRAS_FEATURES : list string.

Lemma for_each_app {S A} (body : A -> M S unit) (l1 l2 : list A) (s : S) :
  for_each (l1 ++ l2) body s =
  match for_each l1 body s with
  | (Ok _, s') => for_each l2 body s'
  | (Raise e, s') => (Raise e, s')
  end.
Proof.
  revert s. induction l1 as [|x tl IH]; intros s; simpl; auto.
  unfold bind. destruct (body x s) as [[[]|e] s']; auto.
Qed.

Lemma models_of_add (registry : model_features) (bucket : gmap string (gset string))
      (f a n f' a' : string) :
  registry !! f = Some bucket ->
  models_of
    (<[f := <[a := default ∅ (bucket !! a) ∪ {[n]}]> bucket]> registry) f' a'
  = if decide (f = f' /\ a = a')
    then models_of registry f' a' ∪ {[n]}
    else models_of registry f' a'.
Proof.
  intros Hb. unfold models_of.
  rewrite lookup_insert.
  destruct (decide (f = f')) as [<- | Hf]; simpl.
  - rewrite Hb. simpl. rewrite lookup_insert.
    destruct (decide (a = a')) as [<- | Ha]; simpl.
    + rewrite decide_True by auto. reflexivity.
    + rewrite decide_False by tauto. reflexivity.
  - rewrite decide_False by tauto. reflexivity.
Qed.

Lemma has_buckets_add (registry : model_features) (bucket bucket' : gmap string (gset string))
      (f : string) :
  has_buckets EXTRAS_FEATURES registry ->
  has_buckets EXTRAS_FEATURES (<[f := bucket']> registry).
Proof.
  intros H f' Hf'. rewrite lookup_insert.
  destruct (decide (f = f')); eauto.
Qed.

(** Registering supported features succeeds and records the model under each
    of them, and under nothing else. *)
Lemma register_features_valid (model : Model) (features : list string) :
  Forall (fun f => f ∈ EXTRAS_FEATURES) features ->
  forall registry : model_features,
    has_buckets EXTRAS_FEATURES registry ->
    exists registry',
      register_features EXTRAS_FEATURES model features registry
      = (Ok tt, registry')
      /\ has_buckets EXTRAS_FEATURES registry'
      /\ forall f a n,
           n ∈ models_of registry' f a <->
           n ∈ models_of registry f a
           \/ (f ∈ features /\ a = app_label model /\ n = model_name model).
Proof.
  unfold register_features.
  induction 1 as [|feature tl Hvalid _ IH]; intros registry Hb; simpl.
  - exists registry. repeat split; auto. intros [H | (H & _)]; auto.
    now apply elem_of_nil in H.
  - unfold bind at 1. rewrite bool_decide_eq_true_2 by assumption. simpl.
    unfold add_model at 1.
    destruct (Hb feature Hvalid) as [bucket Hbucket]. rewrite Hbucket.
    edestruct IH as (registry' & Hrun & Hb' & Hmodels);
      [eapply has_buckets_add; eauto; exact bucket|].
    exists registry'. split; [exact Hrun|]. split; [exact Hb'|].
    intros f a n. rewrite Hmodels.
    rewrite (models_of_add _ _ _ _ _ _ _ Hbucket).
    rewrite elem_of_cons.
    destruct (decide (feature = f /\ app_label model = a)) as [[<- <-] | Hne].
    + rewrite elem_of_union, elem_of_singleton. tauto.
    + split; [tauto|]. intros [H | ([-> | H] & -> & ->)]; auto; tauto.
Qed.

(** Adding a model that is already recorded leaves the registry as it is. *)
Lemma insert_recorded (registry : model_features)
      (bucket : gmap string (gset string)) (f a n : string) :
  registry !! f = Some bucket ->
  n ∈ models_of registry f a ->
  <[f := <[a := default ∅ (bucket !! a) ∪ {[n]}]> bucket]> registry = registry.
Proof.
  intros Hb. unfold models_of. rewrite Hb. simpl.
  destruct (bucket !! a) as [names|] eqn:Ha; simpl; intros Hn.
  - assert (Hsame : names ∪ {[n]} = names).
    { apply set_eq. intros x. rewrite elem_of_union, elem_of_singleton.
      split; [intros [H | ->]; auto | auto]. }
    rewrite Hsame, (insert_id bucket a names Ha). now apply insert_id.
  - now apply not_elem_of_empty in Hn.
Qed.

Lemma register_features_recorded (model : Model) (features : list string)
      (registry : model_features) :
  Forall (fun f => f ∈ EXTRAS_FEATURES) features ->
  has_buckets EXTRAS_FEATURES registry ->
  (forall f, f ∈ features ->
             model_name model ∈ models_of registry f (app_label model)) ->
  register_features EXTRAS_FEATURES model features registry = (Ok tt, registry).
Proof.
  unfold register_features.
  induction 1 as [|feature tl Hvalid _ IH]; intros Hb Hrec; simpl; auto.
  unfold bind at 1. rewrite bool_decide_eq_true_2 by assumption. simpl.
  unfold add_model at 1.
  destruct (Hb feature Hvalid) as [bucket Hbucket]. rewrite Hbucket.
  rewrite (insert_recorded _ _ _ _ _ Hbucket)
    by (apply Hrec, elem_of_cons; auto).
  apply IH; auto. intros f Hf. apply Hrec, elem_of_cons. auto.
Qed.

Lemma has_buckets_init : has_buckets EXTRAS_FEATURES (registry_init EXTRAS_FEATURES).
Proof.
  unfold has_buckets, registry_init.
  induction EXTRAS_FEATURES as [|f tl IH]; intros feature Hin; simpl.
  - now apply elem_of_nil in Hin.
  - rewrite lookup_insert. destruct (decide (f = feature)); eauto.
    apply elem_of_cons in Hin as [-> | Hin]; [congruence | auto].
Qed.

Lemma models_of_init (f a : string) :
  models_of (registry_init EXTRAS_FEATURES) f a = ∅.
Proof.
  unfold models_of, registry_init.
  induction EXTRAS_FEATURES as [|f0 tl IH]; simpl.
  - now rewrite lookup_empty.
  - rewrite lookup_insert. destruct (decide (f0 = f)); auto.
Qed.

Lemma first_invalid (features : list string) :
  Exists (fun f => f ∉ EXTRAS_FEATURES) features ->
  exists valid invalid rest,
    features = valid ++ invalid :: rest
    /\ Forall (fun f => f ∈ EXTRAS_FEATURES) valid
    /\ (invalid ∉ EXTRAS_FEATURES).
Proof.
  induction features as [|f tl IH]; intros H.
  - inversion H.
  - destruct (decide (f ∈ EXTRAS_FEATURES)) as [Hin | Hout].
    + apply Exists_cons in H as [H | H]; [contradiction|].
      destruct (IH H) as (valid & invalid & rest & -> & Hvalid & Hinvalid).
      exists (f :: valid), invalid, rest. repeat split; auto.
    + exists [], f, tl. repeat split; auto.
Qed.

End RegistryFacts.

Section Registration.

Variable EXTRAS_FEATURES : list string.

(** C4, as the code has it.  When some name of the collection is not in
    [EXTRAS_FEATURES], [register_features] raises the error naming the first
    such name, in iteration order.  The names before it are supported and
    have been registered by then: the registry is the one a successful
    registration of just these names leaves, so the model is recorded under
    each of them and nothing else has changed.  The registry is what it was
    exactly when the model was already recorded under each of these names; it
    is so, in particular, with the unsupported name in first position. *)
Theorem register_features_stops_at_invalid :
  forall (model : Model) (features : list string) (registry : model_features),
    has_buckets EXTRAS_FEATURES registry ->
    Exists (fun f => f ∉ EXTRAS_FEATURES) features ->
    exists (valid : list string) (invalid : string) (rest : list string)
           (registry' : model_features),
      features = valid ++ invalid :: rest
      /\ Forall (fun f => f ∈ EXTRAS_FEATURES) valid
      /\ (invalid ∉ EXTRAS_FEATURES)
      /\ register_features EXTRAS_FEATURES model features registry
         = (Raise (invalid_feature invalid), registry')
      /\ register_features EXTRAS_FEATURES model valid registry
         = (Ok tt, registry')
      /\ (valid = [] -> registry' = registry)
      /\ (registry' = registry <->
          forall f, f ∈ valid ->
                    model_name model ∈ models_of registry f (app_label model))
      /\ (forall f a n,
             n ∈ models_of registry' f a <->
             n ∈ models_of registry f a
             \/ (f ∈ valid /\ a = app_label model /\ n = model_name model)).
Proof.
  intros model features registry Hb Hex.
  destruct (first_invalid EXTRAS_FEATURES features Hex)
    as (valid & invalid & rest & -> & Hvalid & Hinvalid).
  destruct (register_features_valid EXTRAS_FEATURES model valid Hvalid
              registry Hb) as (registry' & Hrun & _ & Hmodels).
  exists valid, invalid, rest, registry'.
  split; [reflexivity|]. split; [exact Hvalid|]. split; [exact Hinvalid|].
  split; [|split; [exact Hrun|split; [|split; [|exact Hmodels]]]].
  - unfold register_features in *. rewrite for_each_app, Hrun. simpl.
    unfold bind. now rewrite bool_decide_eq_false_2 by assumption.
  - intros ->. unfold register_features in Hrun. simpl in Hrun.
    unfold ret in Hrun. congruence.
  - split.
    + intros Heq f Hf. rewrite <- Heq. apply Hmodels. right. auto.
    + intros Hrec.
      rewrite (register_features_recorded EXTRAS_FEATURES model valid registry
                 Hvalid Hb Hrec) in Hrun.
      congruence.
Qed.

End Registration.

Lemma register_features_stops_at_invalid_witness :
  exists (valid : list string) (invalid : string) (rest : list string)
         (registry' : model_features),
    ["tags"; "bogus"; "webhooks"] = valid ++ invalid :: rest
    /\ Forall (fun f => f ∈ Fixtures.features) valid
    /\ (invalid ∉ Fixtures.features)
    /\ register_features Fixtures.features Fixtures.site
         ["tags"; "bogus"; "webhooks"] (registry_init Fixtures.features)
       = (Raise (invalid_feature invalid), registry')
    /\ register_features Fixtures.features Fixtures.site valid
         (registry_init Fixtures.features)
       = (Ok tt, registry')
    /\ (valid = [] -> registry' = registry_init Fixtures.features)
    /\ (registry' = registry_init Fixtures.features <->
        forall f, f ∈ valid ->
                  model_name Fixtures.site
                  ∈ models_of (registry_init Fixtures.features) f
                      (app_label Fixtures.site))
    /\ (forall f a n,
           n ∈ models_of registry' f a <->
           n ∈ models_of (registry_init Fixtures.features) f a
           \/ (f ∈ valid /\ a = app_label Fixtures.site
               /\ n = model_name Fixtures.site)).
Proof.
  apply (register_features_stops_at_invalid Fixtures.features Fixtures.site
           ["tags"; "bogus"; "webhooks"] (registry_init Fixtures.features)).
  - apply has_buckets_init.
  - apply Exists_cons_tl, Exists_cons_hd.
    apply (bool_decide_unpack _). vm_compute. exact I.
Defined.

(** C4, as stated, fails: the supported name [tags] comes before the
    unsupported one, the error is raised, and the model is by then recorded
    under [tags]; the registry is not what it was. *)
Lemma register_features_partial_write :
  let outcome :=
    register_features Fixtures.features Fixtures.site ["tags"; "bogus"]
      (registry_init Fixtures.features) in
  fst outcome = Raise (invalid_feature "bogus")
  /\ ("site" ∈ models_of (snd outcome) "tags" "dcim")
  /\ ("site" ∉ models_of (registry_init Fixtures.features) "tags" "dcim")
  /\ snd outcome <> registry_init Fixtures.features.
Proof.
  assert (Hin : "site" ∈ models_of
                  (snd (register_features Fixtures.features Fixtures.site
                          ["tags"; "bogus"] (registry_init Fixtures.features)))
                  "tags" "dcim")
    by (apply (bool_decide_unpack _); vm_compute; exact I).
  assert (Hout : "site" ∉ models_of (registry_init Fixtures.features)
                   "tags" "dcim")
    by (rewrite models_of_init; apply not_elem_of_empty).
  intros outcome. split; [reflexivity|]. split; [exact Hin|].
  split; [exact Hout|].
  intros Heq. apply Hout. fold outcome in Hin. now rewrite Heq in Hin.
Qed.

(** ** Deferred feature queries *)

Section Deferred.

Variable EXTRAS_FEATURES : list string.

Lemma selects_disjuncts (l : list (string * gset string)) (ct : string * string) :
  forall q0 : Q,
    q0 <> Q_empty ->
    selects (fold_left disjunct l q0) ct = selects q0 ct || existsb (item_selects ct) l.
Proof.
  induction l as [|item tl IH]; intros q0 Hq0; simpl.
  - now rewrite orb_false_r.
  - rewrite IH.
    + unfold disjunct, or_. destruct q0; try congruence; simpl;
        now rewrite orb_assoc.
    + unfold disjunct, or_. destruct q0; congruence.
Qed.

Lemma selects_disjuncts_from_empty (l : list (string * gset string))
      (ct : string * string) :
  l <> [] ->
  selects (fold_left disjunct l Q_empty) ct = existsb (item_selects ct) l.
Proof.
  destruct l as [|item tl]; [congruence|]. intros _. simpl.
  rewrite selects_disjuncts; [reflexivity | discriminate].
Qed.

(** With a non-empty bucket, the query selects the recorded content types
    and no other. *)
Lemma get_query_selects (registry : model_features)
      (bucket : gmap string (gset string)) (f : string) :
  registry !! f = Some bucket ->
  bucket <> ∅ ->
  exists q,
    get_query {| feature := f |} registry = (Ok q, registry)
    /\ forall a n, selects q (a, n) = true <-> n ∈ models_of registry f a.
Proof.
  intros Hb Hne. unfold get_query. simpl. rewrite Hb.
  eexists. split; [reflexivity|]. intros a n.
  change (fun (query : Q) (item : string * gset string) =>
            or_ query (Q_lookup (fst item) (snd item))) with disjunct.
  rewrite selects_disjuncts_from_empty
    by (intros H; now apply map_to_list_empty_iff in H).
  unfold models_of. rewrite Hb. simpl.
  rewrite existsb_exists. split.
  - intros ([a' s] & Hin & Hsel).
    apply list_elem_of_In, elem_of_map_to_list in Hin.
    unfold item_selects in Hsel. simpl in Hsel.
    apply andb_true_iff in Hsel as [Ha Hn].
    apply String.eqb_eq in Ha. subst a'.
    apply bool_decide_eq_true in Hn. now rewrite Hin.
  - intros Hn. destruct (bucket !! a) as [s|] eqn:Hs; simpl in Hn.
    + exists (a, s). split.
      * now apply list_elem_of_In, elem_of_map_to_list.
      * unfold item_selects. simpl. rewrite String.eqb_refl. simpl.
        now apply bool_decide_eq_true.
    + now apply not_elem_of_empty in Hn.
Qed.

(** A filter built from an empty bucket is [Q()], which selects anything. *)
Lemma get_query_empty_bucket (registry : model_features) (f : string)
      (ct : string * string) :
  registry !! f = Some ∅ ->
  exists q,
    get_query {| feature := f |} registry = (Ok q, registry)
    /\ selects q ct = true.
Proof.
  intros Hb. unfold get_query. simpl. rewrite Hb, map_to_list_empty.
  eexists. split; reflexivity.
Qed.

(** A run of successful registrations records each model under each feature
    it was registered for. *)
Lemma registrations_valid (registrations : list (Model * list string)) :
  Forall (fun r => Forall (fun f => f ∈ EXTRAS_FEATURES) (snd r)) registrations ->
  forall registry : model_features,
    has_buckets EXTRAS_FEATURES registry ->
    exists registry',
      for_each registrations
        (fun r => register_features EXTRAS_FEATURES (fst r) (snd r)) registry
      = (Ok tt, registry')
      /\ has_buckets EXTRAS_FEATURES registry'
      /\ forall f a n,
           n ∈ models_of registry' f a <->
           n ∈ models_of registry f a
           \/ exists r, r ∈ registrations /\ f ∈ snd r
                        /\ a = app_label (fst r) /\ n = model_name (fst r).
Proof.
  induction 1 as [|r tl Hr _ IH]; intros registry Hb; simpl.
  - exists registry. repeat split; auto.
    intros [H | (r & H & _)]; auto. now apply elem_of_nil in H.
  - destruct (register_features_valid EXTRAS_FEATURES (fst r) (snd r) Hr
                registry Hb) as (registry1 & Hrun1 & Hb1 & Hm1).
    destruct (IH registry1 Hb1) as (registry' & Hrun & Hb' & Hm).
    exists registry'. unfold bind. rewrite Hrun1.
    split; [exact Hrun|]. split; [exact Hb'|].
    intros f a n. rewrite Hm, Hm1. split.
    + intros [[H | (Hf & -> & ->)] | (r' & Hin & H)]; auto.
      * right. exists r. split; [apply elem_of_cons; auto | auto].
      * right. exists r'. split; [apply elem_of_cons; auto | auto].
    + intros [H | (r' & Hin & Hf & -> & ->)]; auto.
      apply elem_of_cons in Hin as [-> | Hin]; auto.
      right. exists r'. auto.
Qed.

(** C8: a [FeatureQuery] built on the freshly initialised registry, before
    any model is registered, and called after models have registered, at
    least one of them for its feature, yields what calling it on the registry
    of that moment yields: a filter selecting exactly the content types
    registered for the feature by then. *)
Theorem feature_query_is_deferred :
  forall (feature : string) (registrations : list (Model * list string)),
    Forall (fun r => Forall (fun f => f ∈ EXTRAS_FEATURES) (snd r))
      registrations ->
    Exists (fun r => feature ∈ snd r) registrations ->
    exists (q : Q) (registry' : model_features),
      build_register_call EXTRAS_FEATURES feature registrations
        (registry_init EXTRAS_FEATURES) = (Ok q, registry')
      /\ for_each registrations
           (fun r => register_features EXTRAS_FEATURES (fst r) (snd r))
           (registry_init EXTRAS_FEATURES) = (Ok tt, registry')
      /\ FeatureQuery_call {| feature := feature |} registry'
         = (Ok q, registry')
      /\ forall a n,
           selects q (a, n) = true <->
           exists r, r ∈ registrations /\ feature ∈ snd r
                     /\ app_label (fst r) = a /\ model_name (fst r) = n.
Proof.
  intros f registrations Hvalid Hsome.
  destruct (registrations_valid registrations Hvalid
              (registry_init EXTRAS_FEATURES)
              (has_buckets_init EXTRAS_FEATURES))
    as (registry' & Hrun & Hb' & Hm).
  apply Exists_exists in Hsome as (r0 & Hr0 & Hf0).
  assert (Hf : f ∈ EXTRAS_FEATURES).
  { rewrite Forall_forall in Hvalid. specialize (Hvalid r0 Hr0).
    rewrite Forall_forall in Hvalid. auto. }
  destruct (Hb' f Hf) as [bucket Hbucket].
  assert (Hrec : model_name (fst r0) ∈ models_of registry' f (app_label (fst r0))).
  { apply Hm. right. exists r0. auto. }
  destruct (get_query_selects registry' bucket f Hbucket) as (q & Hq & Hsel).
  { intros ->. unfold models_of in Hrec. rewrite Hbucket in Hrec.
    simpl in Hrec. rewrite lookup_empty in Hrec.
    now apply not_elem_of_empty in Hrec. }
  exists q, registry'.
  split; [|split; [exact Hrun | split; [exact Hq|]]].
  - unfold build_register_call, FeatureQuery_init, bind, ret.
    rewrite Hrun. exact Hq.
  - intros a n. rewrite Hsel, Hm, models_of_init. split.
    + intros [H | (r & Hin & Hfr & -> & ->)].
      * now apply not_elem_of_empty in H.
      * exists r. auto.
    + intros (r & Hin & Hfr & <- & <-). right. exists r. auto.
Qed.

End Deferred.

Lemma feature_query_is_deferred_witness :
  exists (q : Q) (registry' : model_features),
    build_register_call Fixtures.features "tags"
      [(Fixtures.site, ["tags"; "webhooks"]); (Fixtures.vlan, ["tags"])]
      (registry_init Fixtures.features) = (Ok q, registry')
    /\ for_each
         [(Fixtures.site, ["tags"; "webhooks"]); (Fixtures.vlan, ["tags"])]
         (fun r => register_features Fixtures.features (fst r) (snd r))
         (registry_init Fixtures.features) = (Ok tt, registry')
    /\ FeatureQuery_call {| feature := "tags" |} registry' = (Ok q, registry')
    /\ forall a n,
         selects q (a, n) = true <->
         exists r,
           r ∈ [(Fixtures.site, ["tags"; "webhooks"]); (Fixtures.vlan, ["tags"])]
           /\ "tags" ∈ snd r
           /\ app_label (fst r) = a /\ model_name (fst r) = n.
Proof.
  apply (feature_query_is_deferred Fixtures.features "tags"
           [(Fixtures.site, ["tags"; "webhooks"]); (Fixtures.vlan, ["tags"])]).
  - repeat constructor.
  - apply Exists_cons_hd. simpl. constructor.
Defined.

(** ** Image uploads *)

Section ImageUploads.

Import Uploads.
Local Open Scope string_scope.

Lemma append_assoc (a b c : string) : (a ++ b) ++ c = a ++ (b ++ c).
Proof.
  induction a as [|x tl IH]; [reflexivity|].
  change (String x ((tl ++ b) ++ c) = String x (tl ++ (b ++ c))).
  now rewrite IH.
Qed.

Lemma rsplit_nonempty (sep : ascii) (s : string) : rsplit sep s <> [].
Proof.
  destruct s as [|c tl]; simpl; [discriminate|].
  destruct (Ascii.eqb c sep); [discriminate|].
  destruct (rsplit sep tl); discriminate.
Qed.

(** Splitting around one separator splits both sides. *)
Lemma rsplit_app (sep : ascii) (a b : string) :
  rsplit sep (a ++ String sep b) = (rsplit sep a ++ rsplit sep b)%list.
Proof.
  induction a as [|c tl IH]; simpl.
  - now rewrite Ascii.eqb_refl.
  - destruct (Ascii.eqb c sep); [now rewrite IH|].
    rewrite IH. destruct (rsplit sep tl) as [|x xs] eqn:E; [|reflexivity].
    now apply rsplit_nonempty in E.
Qed.

Lemma rsplit_without (sep : ascii) (s : string) :
  has_char sep s = false -> rsplit sep s = [s].
Proof.
  induction s as [|c tl IH]; simpl; auto.
  intros H. apply orb_false_iff in H as [Hc Htl].
  now rewrite Hc, (IH Htl).
Qed.

Lemma last_app_nonempty (l1 l2 : list string) (d : string) :
  l2 <> [] -> List.last (l1 ++ l2)%list d = List.last l2 d.
Proof.
  intros Hne. induction l1 as [|x tl IH]; simpl; auto.
  destruct (tl ++ l2)%list eqn:E; auto.
  apply app_eq_nil in E as [_ E]. congruence.
Qed.

(** The extension is the lowered text after the last dot. *)
Lemma extension_of_dotted (stem ext : string) :
  has_char "." ext = false ->
  extension_of (stem ++ String "." ext) = lower ext.
Proof.
  intros H. unfold extension_of.
  rewrite rsplit_app, last_app_nonempty by apply rsplit_nonempty.
  now rewrite (rsplit_without _ _ H).
Qed.

Lemma image_upload_prefix (instance : ImageAttachment) (filename : string) :
  exists stored,
    image_upload instance filename = upload_prefix instance ++ stored
    /\ stored =
       if negb (String.eqb (name instance) "")
       then if existsb (String.eqb (extension_of filename)) image_extensions
            then name instance ++ "." ++ extension_of filename
            else name instance
       else filename.
Proof.
  eexists. split; [|reflexivity].
  unfold image_upload, upload_prefix.
  rewrite !append_assoc. simpl. repeat f_equal.
Qed.

(** X1: for an attachment that has a name, uploading [stem.ext] with one of
    the five image extensions, in any letter case, is stored under the
    attachment's name with the extension in lower case; the stem of the
    uploaded file name is dropped. *)
Theorem image_upload_renames :
  forall (instance : ImageAttachment) (stem ext : string),
    name instance <> "" ->
    has_char "." ext = false ->
    In (lower ext) image_extensions ->
    image_upload instance (stem ++ "." ++ ext)
    = upload_prefix instance ++ name instance ++ "." ++ lower ext.
Proof.
  intros instance stem ext Hname Hext Hin.
  destruct (image_upload_prefix instance (stem ++ "." ++ ext))
    as (stored & -> & ->).
  apply String.eqb_neq in Hname. rewrite Hname. simpl negb. cbv iota.
  change (stem ++ "." ++ ext) with (stem ++ String "." ext).
  rewrite (extension_of_dotted stem ext Hext).
  assert (Hex : existsb (String.eqb (lower ext)) image_extensions = true).
  { apply existsb_exists. exists (lower ext). split; auto.
    apply String.eqb_refl. }
  now rewrite Hex.
Qed.

(** X2: whatever is uploaded for an attachment that has a name, the stored
    file name is that name alone or that name followed by a dot and one of
    [bmp], [gif], [jpeg], [jpg], [png]. *)
Theorem image_upload_named_shape :
  forall (instance : ImageAttachment) (filename : string),
    name instance <> "" ->
    image_upload instance filename = upload_prefix instance ++ name instance
    \/ exists e,
         In e image_extensions
         /\ image_upload instance filename
            = upload_prefix instance ++ name instance ++ "." ++ e.
Proof.
  intros instance filename Hname.
  destruct (image_upload_prefix instance filename) as (stored & -> & ->).
  apply String.eqb_neq in Hname. rewrite Hname. simpl negb. cbv iota.
  destruct (existsb _ _) eqn:E; auto.
  right. apply existsb_exists in E as (e & Hin & He).
  apply String.eqb_eq in He. exists e. split; auto. now rewrite He.
Qed.

(** X3: two edge cases of the extension.  A file name without any dot is
    its own extension: uploaded for a named attachment, [PNG] is stored as
    the name followed by [.png].  A file name ending in a dot has the empty
    extension and is stored under the bare name. *)
Theorem image_upload_edge_extensions :
  forall (instance : ImageAttachment),
    name instance <> "" ->
    (forall filename,
        has_char "." filename = false ->
        In (lower filename) image_extensions ->
        image_upload instance filename
        = upload_prefix instance ++ name instance ++ "." ++ lower filename)
    /\ (forall stem,
          image_upload instance (stem ++ ".")
          = upload_prefix instance ++ name instance).
Proof.
  intros instance Hname. apply String.eqb_neq in Hname. split.
  - intros filename Hdot Hin.
    destruct (image_upload_prefix instance filename) as (stored & -> & ->).
    rewrite Hname. simpl negb. cbv iota.
    assert (Hext : extension_of filename = lower filename).
    { unfold extension_of. now rewrite (rsplit_without _ _ Hdot). }
    rewrite Hext.
    assert (Hex : existsb (String.eqb (lower filename)) image_extensions = true).
    { apply existsb_exists. exists (lower filename). split; auto.
      apply String.eqb_refl. }
    now rewrite Hex.
  - intros stem.
    destruct (image_upload_prefix instance (stem ++ ".")) as (stored & -> & ->).
    rewrite Hname. simpl negb. cbv iota.
    change (stem ++ ".") with (stem ++ String "." "").
    now rewrite (extension_of_dotted stem "" eq_refl).
Qed.

(** X4: an attachment without a name keeps the uploaded file name as it is,
    whatever its extension; and for an attachment with a name only the
    lowered extension of the uploaded file name matters. *)
Theorem image_upload_unnamed_or_extension_only :
  (forall (instance : ImageAttachment) (filename : string),
      name instance = "" ->
      image_upload instance filename = upload_prefix instance ++ filename)
  /\ (forall (instance : ImageAttachment) (stem1 stem2 ext1 ext2 : string),
        name instance <> "" ->
        has_char "." ext1 = false ->
        has_char "." ext2 = false ->
        lower ext1 = lower ext2 ->
        image_upload instance (stem1 ++ "." ++ ext1)
        = image_upload instance (stem2 ++ "." ++ ext2)).
Proof.
  split.
  - intros instance filename Hname.
    destruct (image_upload_prefix instance filename) as (stored & -> & ->).
    now rewrite Hname.
  - intros instance stem1 stem2 ext1 ext2 Hname H1 H2 Heq.
    destruct (image_upload_prefix instance (stem1 ++ "." ++ ext1))
      as (s1 & -> & ->).
    destruct (image_upload_prefix instance (stem2 ++ "." ++ ext2))
      as (s2 & -> & ->).
    change (stem1 ++ "." ++ ext1) with (stem1 ++ String "." ext1).
    change (stem2 ++ "." ++ ext2) with (stem2 ++ String "." ext2).
    rewrite (extension_of_dotted stem1 ext1 H1).
    rewrite (extension_of_dotted stem2 ext2 H2).
    apply String.eqb_neq in Hname. rewrite Hname, Heq. reflexivity.
Qed.

End ImageUploads.

(** ** The flattened search-type table *)

Section SearchTypes.

Import Constants.

Variable Item : Type.

Local Abbreviation table := (list (string * Item)).
Local Abbreviation assign_item := (Constants.assign_item Item).

Lemma lookup_assign_eq (d : table) (k : string) (v : Item) :
  lookup Item (assign Item d k v) k = Some v.
Proof.
  induction d as [|[k' v'] tl IH]; simpl.
  - now rewrite String.eqb_refl.
  - destruct (String.eqb k k') eqn:E; simpl; rewrite E; auto.
Qed.

Lemma lookup_assign_ne (d : table) (k k' : string) (v : Item) :
  k <> k' -> lookup Item (assign Item d k' v) k = lookup Item d k.
Proof.
  intros Hne. induction d as [|[k0 v0] tl IH]; simpl.
  - apply String.eqb_neq in Hne. now rewrite Hne.
  - destruct (String.eqb k' k0) eqn:E; simpl.
    + apply String.eqb_eq in E. subst k0.
      apply String.eqb_neq in Hne. now rewrite Hne.
    + now rewrite IH.
Qed.

Lemma lookup_None_existsb (d : table) (k : string) :
  existsb (String.eqb k) (map fst d) = false <-> lookup Item d k = None.
Proof.
  induction d as [|[k' v'] tl IH]; simpl; [tauto|].
  destruct (String.eqb k k'); simpl; [split; discriminate | exact IH].
Qed.

(** One table written into [result]: its keys take its values, the other
    keys keep theirs. *)
Lemma lookup_group (group : table) (k : string) :
  distinct (map fst group) = true ->
  forall result : table,
    lookup Item (fold_left assign_item group result) k =
    match lookup Item group k with
    | Some v => Some v
    | None => lookup Item result k
    end.
Proof.
  induction group as [|[k' v'] tl IH]; simpl; intros Hwf result; auto.
  apply andb_true_iff in Hwf as [Hfresh Hwf].
  apply negb_true_iff in Hfresh.
  rewrite (IH Hwf). unfold Constants.assign_item at 1. simpl.
  destruct (String.eqb k k') eqn:E.
  - apply String.eqb_eq in E. subst k'.
    apply lookup_None_existsb in Hfresh. rewrite Hfresh.
    apply lookup_assign_eq.
  - apply String.eqb_neq in E.
    destruct (lookup Item tl k); auto. now apply lookup_assign_ne.
Qed.

Lemma lookup_group_absent (group : table) (k : string) :
  lookup Item group k = None ->
  forall result : table,
    lookup Item (fold_left assign_item group result) k = lookup Item result k.
Proof.
  induction group as [|[k' v'] tl IH]; simpl; intros Habs result; auto.
  destruct (String.eqb k k') eqn:E; [discriminate|].
  rewrite (IH Habs). unfold Constants.assign_item. simpl.
  apply lookup_assign_ne. now apply String.eqb_neq.
Qed.

Lemma lookup_groups_absent (groups : list table) (k : string) :
  Forall (fun g => lookup Item g k = None) groups ->
  forall result : table,
    lookup Item
      (fold_left (fun r g => fold_left assign_item g r) groups result) k
    = lookup Item result k.
Proof.
  induction 1 as [|g tl Hg _ IH]; intros result; simpl; auto.
  rewrite IH. now apply lookup_group_absent.
Qed.

Lemma build_from_fold (hierarchy : list (string * table)) :
  build_from Item hierarchy =
  fold_left (fun r g => fold_left assign_item g r) (map snd hierarchy) [].
Proof. reflexivity. Qed.

(** X5: a name is looked up in the flattened table as in the last table of
    the hierarchy that has it; a name no table has is absent. *)
Theorem build_from_last_table_wins :
  forall (name : string),
    (forall (before after : list (string * table)) (label : string)
            (group : table) (item : Item),
        distinct (map fst group) = true ->
        lookup Item group name = Some item ->
        Forall (fun g => lookup Item (snd g) name = None) after ->
        lookup Item (build_from Item (before ++ (label, group) :: after)) name
        = Some item)
    /\ (forall hierarchy : list (string * table),
          Forall (fun g => lookup Item (snd g) name = None) hierarchy ->
          lookup Item (build_from Item hierarchy) name = None).
Proof.
  intros name. split.
  - intros before after label group item Hwf Hitem Hafter.
    rewrite build_from_fold, map_app, fold_left_app. simpl.
    rewrite lookup_groups_absent.
    + now rewrite (lookup_group group name Hwf), Hitem.
    + apply List.Forall_forall. intros g Hg.
      apply in_map_iff in Hg as (x & <- & Hx).
      rewrite List.Forall_forall in Hafter. auto.
  - intros hierarchy Habs. rewrite build_from_fold, lookup_groups_absent; auto.
    apply List.Forall_forall. intros g Hg.
    apply in_map_iff in Hg as (x & <- & Hx).
    rewrite List.Forall_forall in Habs. auto.
Qed.

Lemma assign_fresh (d : table) (k : string) (v : Item) :
  existsb (String.eqb k) (map fst d) = false ->
  assign Item d k v = d ++ [(k, v)].
Proof.
  induction d as [|[k' v'] tl IH]; simpl; auto.
  intros H. apply orb_false_iff in H as [H1 H2].
  rewrite H1. now rewrite IH.
Qed.

Lemma distinct_app_fresh (l1 l2 : list string) (k : string) :
  distinct (l1 ++ k :: l2) = true ->
  existsb (String.eqb k) l1 = false /\ distinct ((l1 ++ [k]) ++ l2) = true.
Proof.
  intros H. split.
  - induction l1 as [|x tl IH]; simpl in *; auto.
    apply andb_true_iff in H as [H1 H2].
    apply negb_true_iff in H1. rewrite existsb_app in H1. simpl in H1.
    apply orb_false_iff in H1 as [_ H1].
    apply orb_false_iff in H1 as [H1 _].
    rewrite String.eqb_sym, H1. simpl. auto.
  - now rewrite <- app_assoc.
Qed.

Lemma fold_group_fresh (group : table) :
  forall result : table,
    distinct (map fst (result ++ group)) = true ->
    fold_left assign_item group result = result ++ group.
Proof.
  induction group as [|[k v] tl IH]; simpl; intros result Hwf.
  - now rewrite app_nil_r.
  - rewrite map_app in Hwf. simpl in Hwf.
    apply distinct_app_fresh in Hwf as [Hfresh Hwf].
    change (Constants.assign_item Item result (k, v))
      with (assign Item result k v).
    rewrite (assign_fresh _ _ _ Hfresh).
    rewrite IH; rewrite <- app_assoc; simpl; auto.
    rewrite map_app. simpl. now rewrite <- app_assoc in Hwf.
Qed.

Lemma distinct_app_l (l1 l2 : list string) :
  distinct (l1 ++ l2) = true -> distinct l1 = true.
Proof.
  induction l1 as [|x tl IH]; simpl; auto.
  intros H. apply andb_true_iff in H as [H1 H2].
  apply negb_true_iff in H1. rewrite existsb_app in H1.
  apply orb_false_iff in H1 as [H1 _]. rewrite H1. simpl. auto.
Qed.

Lemma fold_groups_fresh (groups : list table) :
  forall result : table,
    distinct (map fst (result ++ concat groups)) = true ->
    fold_left (fun r g => fold_left assign_item g r) groups result
    = result ++ concat groups.
Proof.
  induction groups as [|g tl IH]; simpl; intros result Hwf.
  - now rewrite app_nil_r.
  - rewrite fold_group_fresh.
    + rewrite IH; rewrite <- app_assoc; auto.
    + rewrite app_assoc, map_app in Hwf. now apply distinct_app_l in Hwf.
Qed.

(** X6: when no name occurs twice in the hierarchy, flattening loses
    nothing: the result is the tables of the hierarchy one after the other,
    entry for entry. *)
Theorem build_from_lossless :
  forall hierarchy : list (string * table),
    distinct (map fst (concat (map snd hierarchy))) = true ->
    build_from Item hierarchy = concat (map snd hierarchy).
Proof.
  intros hierarchy Hwf. rewrite build_from_fold.
  now rewrite fold_groups_fresh.
Qed.

End SearchTypes.

(** ** Registration as a whole *)

Section RegistrySets.

Variable EXTRAS_FEATURES : list string.

Ltac map_lookups :=
  repeat first
    [ rewrite lookup_insert_eq
    | rewrite lookup_insert_ne by auto
    | rewrite lookup_alter_eq
    | rewrite lookup_alter_ne by auto ].

Lemma add_model_note (f a n : string) (registry : model_features) :
  snd (add_model f a n registry) = note_model f a n registry.
Proof.
  unfold add_model, note_model.
  destruct (registry !! f) as [bucket|] eqn:E; simpl;
    apply (map_eq (M:=gmap string)); intros j;
    (destruct (decide (f = j)) as [<- | Hf];
     map_lookups; rewrite ?E; reflexivity).
Qed.

Lemma note_model_comm (f a n f' a' n' : string) (registry : model_features) :
  note_model f a n (note_model f' a' n' registry)
  = note_model f' a' n' (note_model f a n registry).
Proof.
  unfold note_model. apply (map_eq (M:=gmap string)). intros j.
  destruct (decide (f = j)) as [Hf | Hf]; destruct (decide (f' = j)) as [Hf' | Hf'];
    subst; map_lookups; try reflexivity.
  destruct (registry !! j) as [bucket|]; simpl; [|reflexivity]. f_equal.
  apply (map_eq (M:=gmap string)). intros i.
  destruct (decide (a = i)) as [Ha | Ha]; destruct (decide (a' = i)) as [Ha' | Ha'];
    subst; map_lookups; try reflexivity.
  simpl. f_equal. apply set_eq. intros x. rewrite !elem_of_union. tauto.
Qed.

Lemma note_model_idem (f a n : string) (registry : model_features) :
  note_model f a n (note_model f a n registry) = note_model f a n registry.
Proof.
  unfold note_model. apply (map_eq (M:=gmap string)). intros j.
  destruct (decide (f = j)) as [<- | Hf]; map_lookups; [|reflexivity].
  destruct (registry !! f) as [bucket|]; simpl; [|reflexivity]. f_equal.
  apply (map_eq (M:=gmap string)). intros i.
  destruct (decide (a = i)) as [<- | Ha]; map_lookups; [|reflexivity].
  simpl. f_equal. apply set_eq. intros x. rewrite !elem_of_union. tauto.
Qed.

Lemma has_buckets_note (f a n : string) (registry : model_features) :
  has_buckets EXTRAS_FEATURES registry ->
  has_buckets EXTRAS_FEATURES (note_model f a n registry).
Proof.
  intros H f' Hf'. unfold note_model.
  destruct (decide (f = f')) as [<- | Hne]; map_lookups; auto.
  destruct (H f Hf') as [b ->]. simpl. eauto.
Qed.

(** One round of the loop of [register_features]. *)
Lemma register_features_cons (model : Model) (f : string) (tl : list string)
      (registry : model_features) :
  register_features EXTRAS_FEATURES model (f :: tl) registry =
  if bool_decide (f ∈ EXTRAS_FEATURES)
  then match registry !! f with
       | Some _ =>
           register_features EXTRAS_FEATURES model tl
             (note_model f (app_label model) (model_name model) registry)
       | None => (Raise (KeyError f), registry)
       end
  else (Raise (invalid_feature f), registry).
Proof.
  unfold register_features. simpl. unfold bind at 1.
  destruct (bool_decide (f ∈ EXTRAS_FEATURES)); simpl; [|reflexivity].
  rewrite <- add_model_note. unfold add_model.
  destruct (registry !! f); reflexivity.
Qed.

(** Registering supported features succeeds and notes the model under each. *)
Lemma register_features_notes (model : Model) (features : list string) :
  Forall (fun f => f ∈ EXTRAS_FEATURES) features ->
  forall registry : model_features,
    has_buckets EXTRAS_FEATURES registry ->
    register_features EXTRAS_FEATURES model features registry
    = (Ok tt, note_features model features registry).
Proof.
  induction 1 as [|f tl Hf _ IH]; intros registry Hb; [reflexivity|].
  rewrite register_features_cons, bool_decide_eq_true_2 by assumption.
  destruct (Hb f Hf) as [b ->].
  rewrite IH by now apply has_buckets_note. reflexivity.
Qed.

Lemma has_buckets_note_features (model : Model) (features : list string) :
  forall registry : model_features,
    has_buckets EXTRAS_FEATURES registry ->
    has_buckets EXTRAS_FEATURES (note_features model features registry).
Proof.
  unfold note_features.
  induction features as [|f tl IH]; intros registry Hb; simpl; auto.
  apply IH. now apply has_buckets_note.
Qed.

Lemma registrations_note (registrations : list (Model * list string)) :
  Forall (fun r => Forall (fun f => f ∈ EXTRAS_FEATURES) (snd r)) registrations ->
  forall registry : model_features,
    has_buckets EXTRAS_FEATURES registry ->
    for_each registrations
      (fun r => register_features EXTRAS_FEATURES (fst r) (snd r)) registry
    = (Ok tt, note_registrations registrations registry).
Proof.
  induction 1 as [|r tl Hr _ IH]; intros registry Hb; [reflexivity|].
  simpl. unfold bind. rewrite (register_features_notes _ _ Hr _ Hb).
  rewrite IH by now apply has_buckets_note_features. reflexivity.
Qed.

Lemma note_features_comm_model (model : Model) (features : list string)
      (f a n : string) :
  forall registry : model_features,
    note_features model features (note_model f a n registry)
    = note_model f a n (note_features model features registry).
Proof.
  unfold note_features.
  induction features as [|f' tl IH]; intros registry; simpl; auto.
  now rewrite note_model_comm, IH.
Qed.

Lemma note_features_comm (m1 m2 : Model) (fs1 fs2 : list string) :
  forall registry : model_features,
    note_features m1 fs1 (note_features m2 fs2 registry)
    = note_features m2 fs2 (note_features m1 fs1 registry).
Proof.
  induction fs1 as [|f tl IH]; intros registry; [reflexivity|].
  change (note_features m1 tl
            (note_model f (app_label m1) (model_name m1)
               (note_features m2 fs2 registry))
          = note_features m2 fs2
              (note_features m1 tl
                 (note_model f (app_label m1) (model_name m1) registry))).
  now rewrite <- note_features_comm_model, IH.
Qed.

Lemma note_registrations_perm (l1 l2 : list (Model * list string)) :
  Permutation l1 l2 ->
  forall registry : model_features,
    note_registrations l1 registry = note_registrations l2 registry.
Proof.
  unfold note_registrations.
  induction 1 as [|x l l' _ IH|x y l|l l' l'' _ IH1 _ IH2]; intros registry;
    simpl; auto.
  - now rewrite note_features_comm.
  - now rewrite IH1.
Qed.

(** What a bucket holds after a model is noted under a list of features. *)
Lemma lookup_note_features (model : Model) (features : list string) (j : string) :
  forall registry : model_features,
    note_features model features registry !! j =
    if decide (j ∈ features)
    then note_model j (app_label model) (model_name model) registry !! j
    else registry !! j.
Proof.
  unfold note_features.
  induction features as [|f tl IH]; intros registry; cbn [fold_left].
  - rewrite decide_False by apply not_elem_of_nil. reflexivity.
  - rewrite IH. destruct (decide (j ∈ tl)) as [Htl | Htl].
    + rewrite decide_True by (apply elem_of_cons; auto).
      destruct (decide (f = j)) as [-> | Hne].
      * now rewrite note_model_idem.
      * unfold note_model. now map_lookups.
    + destruct (decide (f = j)) as [-> | Hne].
      * rewrite decide_True by (apply elem_of_cons; auto). reflexivity.
      * rewrite decide_False
          by (rewrite elem_of_cons; intros [? | ?]; congruence).
        unfold note_model. now map_lookups.
Qed.

Lemma models_of_note (f a n f0 a0 n0 : string) (registry : model_features) :
  n0 ∈ models_of (note_model f a n registry) f0 a0 <->
  n0 ∈ models_of registry f0 a0
  \/ (f = f0 /\ a = a0 /\ n = n0 /\ is_Some (registry !! f)).
Proof.
  unfold models_of, note_model.
  destruct (decide (f = f0)) as [<- | Hf]; map_lookups.
  - destruct (registry !! f) as [bucket|]; simpl.
    + destruct (decide (a = a0)) as [<- | Ha]; map_lookups; simpl.
      * rewrite elem_of_union, elem_of_singleton.
        split; [intros [H | ->]; eauto 6 | intros [H | (_ & _ & -> & _)]; auto].
      * split; auto. intros [H | (_ & Heq & _)]; [auto | congruence].
    + split; auto. intros [H | (_ & _ & _ & [x Hx])]; [auto | discriminate].
  - split; auto. intros [H | (Heq & _)]; [auto | congruence].
Qed.

Lemma lookup_note_model_eq (f a n : string) (registry : model_features) :
  note_model f a n registry !! f =
  (fun bucket => <[a := default ∅ (bucket !! a) ∪ {[n]}]> bucket)
    <$> registry !! f.
Proof. unfold note_model. apply lookup_alter_eq. Qed.

Lemma is_Some_note (f a n f0 : string) (registry : model_features) :
  is_Some (note_model f a n registry !! f0) <-> is_Some (registry !! f0).
Proof.
  unfold note_model. destruct (decide (f = f0)) as [<- | Hf]; map_lookups.
  - now rewrite fmap_is_Some.
  - reflexivity.
Qed.

(** X7: with a bucket for every supported feature, [register_features]
    succeeds exactly when every name of the collection is a supported
    feature. *)
Theorem register_features_succeeds_iff_valid :
  forall (model : Model) (features : list string) (registry : model_features),
    has_buckets EXTRAS_FEATURES registry ->
    (fst (register_features EXTRAS_FEATURES model features registry) = Ok tt
     <-> Forall (fun f => f ∈ EXTRAS_FEATURES) features).
Proof.
  intros model features registry Hb. split.
  - revert registry Hb.
    induction features as [|f tl IH]; intros registry Hb Hok; [constructor|].
    rewrite register_features_cons in Hok.
    destruct (bool_decide (f ∈ EXTRAS_FEATURES)) eqn:Hf; [|discriminate Hok].
    apply bool_decide_eq_true in Hf.
    destruct (Hb f Hf) as [b Hbucket]. rewrite Hbucket in Hok.
    constructor; auto.
    apply (IH _ (has_buckets_note _ _ _ _ Hb) Hok).
  - intros Hvalid. now rewrite (register_features_notes _ _ Hvalid _ Hb).
Qed.

(** X8: what a successful registration leaves in the registry depends only
    on which features are named, not on their order nor on repetitions. *)
Theorem register_features_depends_on_set :
  forall (model : Model) (features1 features2 : list string)
         (registry : model_features),
    has_buckets EXTRAS_FEATURES registry ->
    Forall (fun f => f ∈ EXTRAS_FEATURES) features1 ->
    Forall (fun f => f ∈ EXTRAS_FEATURES) features2 ->
    (forall f, f ∈ features1 <-> f ∈ features2) ->
    register_features EXTRAS_FEATURES model features1 registry
    = register_features EXTRAS_FEATURES model features2 registry.
Proof.
  intros model fs1 fs2 registry Hb H1 H2 Hsame.
  rewrite (register_features_notes _ _ H1 _ Hb).
  rewrite (register_features_notes _ _ H2 _ Hb). f_equal.
  apply (map_eq (M:=gmap string)). intros j.
  rewrite !lookup_note_features.
  destruct (decide (j ∈ fs1)) as [Hin | Hout].
  - rewrite decide_True by now apply Hsame. reflexivity.
  - rewrite decide_False by now rewrite <- Hsame. reflexivity.
Qed.

(** X9: registering a model again for features it is already registered
    for changes nothing. *)
Theorem register_features_idempotent :
  forall (model : Model) (features : list string) (registry : model_features),
    has_buckets EXTRAS_FEATURES registry ->
    Forall (fun f => f ∈ EXTRAS_FEATURES) features ->
    register_features EXTRAS_FEATURES model features
      (snd (register_features EXTRAS_FEATURES model features registry))
    = register_features EXTRAS_FEATURES model features registry.
Proof.
  intros model fs registry Hb Hvalid.
  rewrite (register_features_notes _ _ Hvalid _ Hb). simpl.
  rewrite (register_features_notes _ _ Hvalid)
    by now apply has_buckets_note_features.
  f_equal. apply (map_eq (M:=gmap string)). intros j.
  rewrite !lookup_note_features.
  destruct (decide (j ∈ fs)) as [Hin | Hout]; [|reflexivity].
  rewrite lookup_note_model_eq, lookup_note_features.
  rewrite decide_True by assumption.
  rewrite <- lookup_note_model_eq. now rewrite note_model_idem.
Qed.

(** X10: the order in which models register does not matter: two runs of
    successful registrations that differ only in their order leave the same
    registry. *)
Theorem registrations_order_irrelevant :
  forall (registrations1 registrations2 : list (Model * list string))
         (registry : model_features),
    has_buckets EXTRAS_FEATURES registry ->
    Forall (fun r => Forall (fun f => f ∈ EXTRAS_FEATURES) (snd r))
      registrations1 ->
    Permutation registrations1 registrations2 ->
    for_each registrations1
      (fun r => register_features EXTRAS_FEATURES (fst r) (snd r)) registry
    = for_each registrations2
        (fun r => register_features EXTRAS_FEATURES (fst r) (snd r)) registry.
Proof.
  intros l1 l2 registry Hb Hvalid Hperm.
  rewrite (registrations_note l1 Hvalid _ Hb).
  rewrite (registrations_note l2 (Permutation_Forall Hperm Hvalid) _ Hb).
  f_equal. now apply note_registrations_perm.
Qed.

(** X11: whether it succeeds or raises, [register_features] only ever adds
    the given model, and only under supported features of the collection:
    every recorded name stays recorded, every name recorded afterwards was
    recorded before or is the model under one of these features, and no
    bucket appears or disappears. *)
Theorem register_features_only_adds :
  forall (model : Model) (features : list string) (registry : model_features),
    let registry' :=
      snd (register_features EXTRAS_FEATURES model features registry) in
    (forall f a n, n ∈ models_of registry f a -> n ∈ models_of registry' f a)
    /\ (forall f a n,
          n ∈ models_of registry' f a ->
          n ∈ models_of registry f a
          \/ (f ∈ features /\ f ∈ EXTRAS_FEATURES
              /\ a = app_label model /\ n = model_name model))
    /\ (forall f, is_Some (registry' !! f) <-> is_Some (registry !! f)).
Proof.
  intros model features. induction features as [|f0 tl IH]; intros registry.
  - simpl. repeat split; auto.
  - cbv zeta. rewrite register_features_cons.
    destruct (bool_decide (f0 ∈ EXTRAS_FEATURES)) eqn:Hf0;
      [|simpl; repeat split; auto].
    apply bool_decide_eq_true in Hf0.
    destruct (registry !! f0) as [b|] eqn:Hb; [|simpl; repeat split; auto].
    destruct (IH (note_model f0 (app_label model) (model_name model) registry))
      as (Hkeep & Hnew & Hdom).
    split; [|split].
    + intros f a n Hn. apply Hkeep. apply models_of_note. auto.
    + intros f a n Hn. apply Hnew in Hn as [Hn | (Hin & Hef & -> & ->)].
      * apply models_of_note in Hn as [Hn | (<- & <- & <- & _)]; auto.
        right. repeat split; auto. apply elem_of_cons. auto.
      * right. repeat split; auto. apply elem_of_cons. auto.
    + intros f. rewrite Hdom. apply is_Some_note.
Qed.

End RegistrySets.

Section Narrowing.

Variable EXTRAS_FEATURES : list string.

Lemma registry_init_bucket (f : string) :
  f ∈ EXTRAS_FEATURES -> registry_init EXTRAS_FEATURES !! f = Some ∅.
Proof.
  unfold registry_init.
  induction EXTRAS_FEATURES as [|f0 tl IH]; intros Hin; simpl.
  - now apply elem_of_nil in Hin.
  - destruct (decide (f0 = f)) as [-> | Hne].
    + apply lookup_insert_eq.
    + rewrite lookup_insert_ne by assumption.
      apply elem_of_cons in Hin as [-> | Hin]; [congruence | auto].
Qed.

(** X12: a feature query is not monotone in the registry.  For a supported
    feature nobody has registered for, the query is the empty [Q()] and
    selects every content type; once one model has registered, it selects
    that model and no other content type. *)
Theorem feature_query_narrows :
  forall (f : string) (model : Model) (ct : string * string),
    f ∈ EXTRAS_FEATURES ->
    ct <> (app_label model, model_name model) ->
    get_query {| feature := f |} (registry_init EXTRAS_FEATURES)
    = (Ok Q_empty, registry_init EXTRAS_FEATURES)
    /\ selects Q_empty ct = true
    /\ exists (q : Q) (registry' : model_features),
         build_register_call EXTRAS_FEATURES f [(model, [f])]
           (registry_init EXTRAS_FEATURES) = (Ok q, registry')
         /\ selects q ct = false
         /\ selects q (app_label model, model_name model) = true.
Proof.
  intros f model ct Hf Hct. split; [|split; [reflexivity|]].
  - unfold get_query. simpl.
    now rewrite (registry_init_bucket f Hf), map_to_list_empty.
  - destruct (registrations_valid EXTRAS_FEATURES [(model, [f])])
      with (registry := registry_init EXTRAS_FEATURES)
      as (registry' & Hrun & Hb' & Hm).
    { repeat constructor. exact Hf. }
    { apply has_buckets_init. }
    destruct (Hb' f Hf) as [bucket Hbucket].
    assert (Hrec : model_name model ∈ models_of registry' f (app_label model)).
    { apply Hm. right. exists (model, [f]). simpl.
      repeat split; auto; apply elem_of_cons; auto. }
    destruct (get_query_selects registry' bucket f Hbucket) as (q & Hq & Hsel).
    { intros ->. unfold models_of in Hrec. rewrite Hbucket in Hrec.
      simpl in Hrec. rewrite lookup_empty in Hrec.
      now apply not_elem_of_empty in Hrec. }
    exists q, registry'. split; [|split].
    + unfold build_register_call, FeatureQuery_init, bind, ret.
      rewrite Hrun. exact Hq.
    + destruct (selects q ct) eqn:E; [|reflexivity].
      destruct ct as [a n]. apply Hsel, Hm in E.
      rewrite models_of_init in E.
      destruct E as [E | (r & Hin & _ & -> & ->)].
      * now apply not_elem_of_empty in E.
      * apply list_elem_of_singleton in Hin. subst r. now elim Hct.
    + now apply Hsel.
Qed.

End Narrowing.

(** ** The resolver and its surroundings *)

Section ResolverSurroundings.

Variable applies : ConfigContext -> ConfigContextModel -> bool.

(** X13: an instance annotated with [config_context_data] is resolved from
    the annotation alone: the table is not queried, and its contents do not
    influence the outcome. *)
Theorem annotation_overrides_store :
  forall (self : ConfigContextModel) (v : json) (db1 db2 : database),
    config_context_data self = Some v ->
    fst (get_config_context applies self db1)
    = fst (get_config_context applies self db2)
    /\ snd (get_config_context applies self db1) = db1.
Proof.
  intros self v db1 db2 Hattr.
  rewrite !get_config_context_unfold. unfold inherited_contexts.
  rewrite Hattr. split; reflexivity.
Qed.

Lemma filter_perm (p : ConfigContext -> bool) (l1 l2 : list ConfigContext) :
  Permutation l1 l2 -> Permutation (List.filter p l1) (List.filter p l2).
Proof.
  induction 1 as [|x l l' _ IH|x y l|l l' l'' _ IH1 _ IH2]; simpl; auto.
  - destruct (p x); auto.
  - destruct (p x); destruct (p y); auto. apply perm_swap.
  - now rewrite IH1.
Qed.

Lemma ordering_antisym (a b : ConfigContext) :
  ordering a b = true -> ordering b a = true ->
  weight a = weight b /\ name a = name b.
Proof.
  rewrite !ordering_spec.
  intros [H1 | [H1 L1]] [H2 | [H2 L2]]; try lia.
  split; auto. now apply String.leb_antisym.
Qed.

(** Two sorted arrangements of the same rows coincide when no two distinct
    rows tie. *)
Lemma sorted_perm_eq (l1 : list ConfigContext) :
  forall l2 : list ConfigContext,
    StronglySorted (fun a b => ordering a b = true) l1 ->
    StronglySorted (fun a b => ordering a b = true) l2 ->
    Permutation l1 l2 ->
    (forall a b, In a l1 -> In b l1 ->
                 ordering a b = true -> ordering b a = true -> a = b) ->
    l1 = l2.
Proof.
  induction l1 as [|x t1 IH]; intros l2 S1 S2 Hperm Hanti.
  - now apply Permutation_nil in Hperm.
  - destruct l2 as [|y t2].
    { apply Permutation_sym, Permutation_nil in Hperm. discriminate. }
    apply StronglySorted_inv in S1 as [S1 F1].
    apply StronglySorted_inv in S2 as [S2 F2].
    rewrite List.Forall_forall in F1, F2.
    assert (Hxy : x = y).
    { assert (Hx : In x (y :: t2))
        by (apply (Permutation_in _ Hperm); now left).
      assert (Hy : In y (x :: t1))
        by (apply (Permutation_in _ (Permutation_sym Hperm)); now left).
      destruct Hx as [Hx | Hx]; [auto|].
      destruct Hy as [Hy | Hy]; [auto|].
      apply Hanti; [now left | now right | auto | auto]. }
    subst y. f_equal. apply IH; auto.
    + now apply Permutation_cons_inv in Hperm.
    + intros a b Ha Hb. apply Hanti; now right.
Qed.

(** X14: names being unique, the outcome does not depend on the order in
    which the table holds its rows. *)
Theorem row_order_irrelevant :
  forall (self : ConfigContextModel) (db1 db2 : database),
    Permutation (rows db1) (rows db2) ->
    (forall a b, In a (rows db1) -> In b (rows db1) ->
                 name a = name b -> a = b) ->
    fst (get_config_context applies self db1)
    = fst (get_config_context applies self db2).
Proof.
  intros self db1 db2 Hperm Hunique.
  rewrite !get_config_context_unfold. unfold inherited_contexts.
  destruct (config_context_data self); [reflexivity|].
  assert (Heq : order_by (List.filter (fun c => applies c self) (rows db1))
                = order_by (List.filter (fun c => applies c self) (rows db2))).
  { apply sorted_perm_eq; try apply order_by_sorted.
    - rewrite <- !order_by_perm. now apply filter_perm.
    - intros a b Ha Hb Hab Hba.
      apply (Permutation_in _ (Permutation_sym (order_by_perm _))) in Ha, Hb.
      apply filter_In in Ha as [Ha _]. apply filter_In in Hb as [Hb _].
      apply Hunique; auto. now apply (ordering_antisym a b). }
  now rewrite Heq.
Qed.

(** X15: the annotation is a faithful shortcut: an instance annotated with
    the payloads the table would have yielded for it resolves to what the
    instance without the annotation resolves to. *)
Theorem annotation_is_a_shortcut :
  forall (self annotated : ConfigContextModel) (db : database),
    config_context_data self = None ->
    config_context_data annotated
    = Some (JArr (map data
                    (order_by
                       (List.filter (fun c => applies c self) (rows db))))) ->
    local_context_data annotated = local_context_data self ->
    fst (get_config_context applies annotated db)
    = fst (get_config_context applies self db)
    /\ queries (snd (get_config_context applies annotated db)) = queries db
    /\ queries (snd (get_config_context applies self db)) = S (queries db).
Proof.
  intros self annotated db Hself Hann Hlocal.
  rewrite !get_config_context_unfold. unfold inherited_contexts.
  rewrite Hself, Hann, Hlocal. simpl.
  destruct (map data _); auto.
Qed.

End ResolverSurroundings.

(** ** Instances *)

Lemma image_upload_renames_witness :
  Uploads.image_upload
    {| Uploads.name := "front"; Uploads.content_type_name := "device";
       Uploads.object_id := 12 |}
    ("IMG.0001" ++ "." ++ "JPG")%string
  = "image-attachments/device_12_front.jpg".
Proof.
  apply (image_upload_renames
           {| Uploads.name := "front"; Uploads.content_type_name := "device";
              Uploads.object_id := 12 |} "IMG.0001" "JPG").
  - discriminate.
  - reflexivity.
  - simpl. auto.
Defined.

Lemma image_upload_named_shape_witness :
  Uploads.image_upload
    {| Uploads.name := "front"; Uploads.content_type_name := "device";
       Uploads.object_id := 12 |} "notes.txt"
  = (upload_prefix
       {| Uploads.name := "front"; Uploads.content_type_name := "device";
          Uploads.object_id := 12 |} ++ "front")%string
  \/ exists e,
       In e Uploads.image_extensions
       /\ Uploads.image_upload
            {| Uploads.name := "front"; Uploads.content_type_name := "device";
               Uploads.object_id := 12 |} "notes.txt"
          = (upload_prefix
               {| Uploads.name := "front"; Uploads.content_type_name := "device";
                  Uploads.object_id := 12 |} ++ "front" ++ "." ++ e)%string.
Proof.
  apply (image_upload_named_shape
           {| Uploads.name := "front"; Uploads.content_type_name := "device";
              Uploads.object_id := 12 |} "notes.txt").
  discriminate.
Defined.

Lemma image_upload_edge_extensions_witness :
  Uploads.image_upload
    {| Uploads.name := "front"; Uploads.content_type_name := "device";
       Uploads.object_id := 12 |} "PNG"
  = "image-attachments/device_12_front.png".
Proof.
  apply (proj1 (image_upload_edge_extensions
                  {| Uploads.name := "front";
                     Uploads.content_type_name := "device";
                     Uploads.object_id := 12 |} ltac:(discriminate)) "PNG").
  - reflexivity.
  - simpl. auto 6.
Defined.

Lemma image_upload_unnamed_or_extension_only_witness :
  Uploads.image_upload
    {| Uploads.name := ""; Uploads.content_type_name := "rack";
       Uploads.object_id := 7 |} "plan.PDF"
  = "image-attachments/rack_7_plan.PDF".
Proof.
  apply (proj1 image_upload_unnamed_or_extension_only
           {| Uploads.name := ""; Uploads.content_type_name := "rack";
              Uploads.object_id := 7 |} "plan.PDF").
  reflexivity.
Defined.

Lemma build_from_last_table_wins_witness :
  Constants.lookup Constants.SearchType
    (Constants.build_from Constants.SearchType Constants.SEARCH_TYPE_HIERARCHY)
    "vlan"
  = Some {| Constants.queryset := "VLAN"; Constants.filterset := "VLANFilterSet";
            Constants.table := "VLANTable"; Constants.url := "ipam:vlan_list" |}.
Proof.
  apply (proj1 (build_from_last_table_wins Constants.SearchType "vlan")
           [("Circuits", Constants.CIRCUIT_TYPES); ("DCIM", Constants.DCIM_TYPES)]
           [("Tenancy", Constants.TENANCY_TYPES);
            ("Virtualization", Constants.VIRTUALIZATION_TYPES)]
           "IPAM" Constants.IPAM_TYPES).
  - reflexivity.
  - reflexivity.
  - repeat constructor.
Defined.

Lemma build_from_lossless_witness :
  Constants.build_search_types
  = concat (map snd Constants.SEARCH_TYPE_HIERARCHY).
Proof.
  apply (build_from_lossless Constants.SearchType
           Constants.SEARCH_TYPE_HIERARCHY).
  reflexivity.
Defined.

Lemma register_features_succeeds_iff_valid_witness :
  fst (register_features Fixtures.features Fixtures.site ["tags"; "webhooks"]
         (registry_init Fixtures.features)) = Ok tt
  <-> Forall (fun f => f ∈ Fixtures.features) ["tags"; "webhooks"].
Proof.
  apply (register_features_succeeds_iff_valid Fixtures.features Fixtures.site
           ["tags"; "webhooks"] (registry_init Fixtures.features)).
  apply has_buckets_init.
Defined.

Lemma register_features_depends_on_set_witness :
  register_features Fixtures.features Fixtures.site
    ["tags"; "webhooks"; "tags"] (registry_init Fixtures.features)
  = register_features Fixtures.features Fixtures.site
      ["webhooks"; "tags"] (registry_init Fixtures.features).
Proof.
  apply (register_features_depends_on_set Fixtures.features Fixtures.site
           ["tags"; "webhooks"; "tags"] ["webhooks"; "tags"]
           (registry_init Fixtures.features)).
  - apply has_buckets_init.
  - repeat constructor.
  - repeat constructor.
  - intros f. rewrite !elem_of_cons, !elem_of_nil. tauto.
Defined.

Lemma register_features_idempotent_witness :
  register_features Fixtures.features Fixtures.site ["tags"]
    (snd (register_features Fixtures.features Fixtures.site ["tags"]
            (registry_init Fixtures.features)))
  = register_features Fixtures.features Fixtures.site ["tags"]
      (registry_init Fixtures.features).
Proof.
  apply (register_features_idempotent Fixtures.features Fixtures.site ["tags"]
           (registry_init Fixtures.features)).
  - apply has_buckets_init.
  - repeat constructor.
Defined.

Lemma registrations_order_irrelevant_witness :
  for_each [(Fixtures.site, ["tags"; "webhooks"]); (Fixtures.vlan, ["tags"])]
    (fun r => register_features Fixtures.features (fst r) (snd r))
    (registry_init Fixtures.features)
  = for_each [(Fixtures.vlan, ["tags"]); (Fixtures.site, ["tags"; "webhooks"])]
      (fun r => register_features Fixtures.features (fst r) (snd r))
      (registry_init Fixtures.features).
Proof.
  apply (registrations_order_irrelevant Fixtures.features).
  - apply has_buckets_init.
  - repeat constructor.
  - apply perm_swap.
Defined.

Lemma feature_query_narrows_witness :
  get_query {| feature := "tags" |} (registry_init Fixtures.features)
  = (Ok Q_empty, registry_init Fixtures.features)
  /\ selects Q_empty ("ipam", "vlan") = true
  /\ exists (q : Q) (registry' : model_features),
       build_register_call Fixtures.features "tags" [(Fixtures.site, ["tags"])]
         (registry_init Fixtures.features) = (Ok q, registry')
       /\ selects q ("ipam", "vlan") = false
       /\ selects q (app_label Fixtures.site, model_name Fixtures.site) = true.
Proof.
  apply (feature_query_narrows Fixtures.features "tags" Fixtures.site
           ("ipam", "vlan")).
  - repeat constructor.
  - discriminate.
Defined.

Lemma annotation_overrides_store_witness :
  fst (get_config_context Fixtures.everywhere
         (Fixtures.annotated (JArr [Fixtures.ntp "1.1.1.1"]) JNull)
         (Fixtures.table [Fixtures.base]))
  = fst (get_config_context Fixtures.everywhere
           (Fixtures.annotated (JArr [Fixtures.ntp "1.1.1.1"]) JNull)
           (Fixtures.table [Fixtures.override]))
  /\ snd (get_config_context Fixtures.everywhere
            (Fixtures.annotated (JArr [Fixtures.ntp "1.1.1.1"]) JNull)
            (Fixtures.table [Fixtures.base]))
     = Fixtures.table [Fixtures.base].
Proof.
  apply (annotation_overrides_store Fixtures.everywhere
           (Fixtures.annotated (JArr [Fixtures.ntp "1.1.1.1"]) JNull)
           (JArr [Fixtures.ntp "1.1.1.1"])).
  reflexivity.
Defined.

Lemma row_order_irrelevant_witness :
  fst (get_config_context Fixtures.everywhere (Fixtures.device JNull)
         (Fixtures.table [Fixtures.base; Fixtures.override]))
  = fst (get_config_context Fixtures.everywhere (Fixtures.device JNull)
           (Fixtures.table [Fixtures.override; Fixtures.base])).
Proof.
  apply (row_order_irrelevant Fixtures.everywhere).
  - apply perm_swap.
  - simpl. intros a b [<- | [<- | []]] [<- | [<- | []]] H;
      try reflexivity; discriminate H.
Defined.

Lemma annotation_is_a_shortcut_witness :
  fst (get_config_context Fixtures.everywhere
         (Fixtures.annotated
            (JArr [data Fixtures.base; data Fixtures.override]) JNull)
         (Fixtures.table [Fixtures.override; Fixtures.base]))
  = fst (get_config_context Fixtures.everywhere (Fixtures.device JNull)
           (Fixtures.table [Fixtures.override; Fixtures.base]))
  /\ queries (snd (get_config_context Fixtures.everywhere
                     (Fixtures.annotated
                        (JArr [data Fixtures.base; data Fixtures.override])
                        JNull)
                     (Fixtures.table [Fixtures.override; Fixtures.base])))
     = queries (Fixtures.table [Fixtures.override; Fixtures.base])
  /\ queries (snd (get_config_context Fixtures.everywhere
                     (Fixtures.device JNull)
                     (Fixtures.table [Fixtures.override; Fixtures.base])))
     = S (queries (Fixtures.table [Fixtures.override; Fixtures.base])).
Proof.
  apply (annotation_is_a_shortcut Fixtures.everywhere); reflexivity.
Defined.
